(** * The automation rule engine of Project Manager Pro

    A shallow embedding of [src/core/AutomationEngine.ts] (class
    [AutomationEngine]): the rule registry, the trigger dispatcher, the
    condition evaluator, the template interpolator, the action executor and
    the daily scheduler, followed by the properties of the engine.

    Conventions of the embedding.
    - A JavaScript value is a [jsval]; numbers are IEEE 754 doubles
      ([PrimFloat.float]), objects live in a heap and are denoted by their
      address, so that [===] on objects is identity.
    - A string is a [string] whose characters stand for UTF-16 code units
      below 256.
    - What the JavaScript runtime supplies (members found on prototypes and on
      primitives, the conversion of numbers and objects to strings) and what
      the host application supplies ([Notice], [vault.create]) are the
      classes [Runtime] and [Host]: every theorem holds for each of their
      instances.
    - An [async] method is a computation in the monad [M]; one call runs to
      completion without interleaving with other callers. *)

From Stdlib Require Import Floats.PrimFloat.
From Stdlib Require Import String Ascii List ZArith Lia Bool Arith.
Import ListNotations.

Local Open Scope list_scope.
Local Open Scope string_scope.

(* ------------------------------------------------------------------ *)
(** ** JavaScript values *)

Definition loc := nat.

Inductive jsval : Type :=
| VUndefined
| VNull
| VBoolean (b : bool)
| VNumber (n : float)
| VString (s : string)
| VObject (l : loc).

(** An object is the list of its own properties; a [Record<string, _>]
    parameter bag is one as well. *)
Definition object := list (string * jsval).
Definition Heap := list (loc * object).

Fixpoint own_property (o : object) (key : string) : option jsval :=
  match o with
  | [] => None
  | (k, v) :: o' => if String.eqb k key then Some v else own_property o' key
  end.

Fixpoint heap_lookup (h : Heap) (l : loc) : option object :=
  match h with
  | [] => None
  | (l', o) :: h' => if Nat.eqb l' l then Some o else heap_lookup h' l
  end.

(** [typeof v] *)
Definition typeof (v : jsval) : string :=
  match v with
  | VUndefined => "undefined"
  | VNull => "object"
  | VBoolean _ => "boolean"
  | VNumber _ => "number"
  | VString _ => "string"
  | VObject _ => "object"
  end.

(** [a === b]: no conversion; numbers compare as doubles (NaN differs from
    itself, the two zeros are equal), objects by identity. *)
Definition strict_equals (a b : jsval) : bool :=
  match a, b with
  | VUndefined, VUndefined => true
  | VNull, VNull => true
  | VBoolean x, VBoolean y => Bool.eqb x y
  | VNumber x, VNumber y => PrimFloat.eqb x y
  | VString x, VString y => String.eqb x y
  | VObject x, VObject y => Nat.eqb x y
  | _, _ => false
  end.

(** ToBoolean: [undefined], [null], [false], [0], [-0], [NaN] and the empty
    string are falsy, everything else is truthy. *)
Definition truthy (v : jsval) : bool :=
  match v with
  | VUndefined | VNull => false
  | VBoolean b => b
  | VNumber n => negb (PrimFloat.eqb n 0%float) && PrimFloat.eqb n n
  | VString s => negb (String.eqb s "")
  | VObject _ => true
  end.

(* ------------------------------------------------------------------ *)
(** ** String operations used by the engine *)

(** [s.split(sep)] for a one-character separator: never empty. *)
Fixpoint split (sep : ascii) (s : string) : list string :=
  match s with
  | EmptyString => [EmptyString]
  | String c s' =>
      if Ascii.eqb c sep then EmptyString :: split sep s'
      else match split sep s' with
           | [] => [String c EmptyString]
           | p :: ps => String c p :: ps
           end
  end.

(** [s.includes(t)] *)
Fixpoint includes (s t : string) : bool :=
  String.prefix t s ||
  match s with
  | EmptyString => false
  | String _ s' => includes s' t
  end.

(** White space and line terminators among the code units below 256:
    TAB, LF, VT, FF, CR, SP and NBSP. *)
Definition is_white_space (c : ascii) : bool :=
  let n := nat_of_ascii c in
  ((9 <=? n)%nat && (n <=? 13)%nat) || (n =? 32)%nat || (n =? 160)%nat.

Fixpoint trimStart (s : string) : string :=
  match s with
  | EmptyString => EmptyString
  | String c s' => if is_white_space c then trimStart s' else s
  end.

Fixpoint trimEnd (s : string) : string :=
  match s with
  | EmptyString => EmptyString
  | String c s' =>
      match trimEnd s' with
      | EmptyString => if is_white_space c then EmptyString else String c EmptyString
      | t => String c t
      end
  end.

(** The one-character string made of a double quote. *)
Definition double_quote : string := String (ascii_of_nat 34) EmptyString.

(** [s.trim()] *)
Definition trim (s : string) : string := trimEnd (trimStart s).

(* ------------------------------------------------------------------ *)
(** ** Data model of the engine *)

Record AutomationTrigger : Type := {
  trigger_type : string;
  trigger_parameters : option object
}.

Record AutomationCondition : Type := {
  field : string;
  operator : string;
  value : jsval
}.

Record AutomationAction : Type := {
  action_type : string;
  action_parameters : object
}.

Record AutomationRule : Type := {
  id : string;
  name : string;
  description : string;
  trigger : AutomationTrigger;
  conditions : list AutomationCondition;
  actions : list AutomationAction;
  enabled : bool
}.

(** [Map<string, AutomationRule>]: entries in insertion order. *)
Definition RuleMap := list (string * AutomationRule).

Fixpoint Map_get (m : RuleMap) (k : string) : option AutomationRule :=
  match m with
  | [] => None
  | (k', r) :: m' => if String.eqb k' k then Some r else Map_get m' k
  end.

(** [m.set(k, r)]: an existing key keeps its place, a new key goes last. *)
Fixpoint Map_set (m : RuleMap) (k : string) (r : AutomationRule) : RuleMap :=
  match m with
  | [] => [(k, r)]
  | (k', r') :: m' =>
      if String.eqb k' k then (k, r) :: m' else (k', r') :: Map_set m' k r
  end.

Definition Map_delete (m : RuleMap) (k : string) : RuleMap :=
  filter (fun e => negb (String.eqb (fst e) k)) m.

Definition Map_values (m : RuleMap) : list AutomationRule := map snd m.

(** The fields of the class that the engine's logic reads or writes:
    [rules] and [isEnabled]. *)
Record AutomationEngine : Type := {
  rules : RuleMap;
  isEnabled : bool
}.

(* ------------------------------------------------------------------ *)
(** ** The rule registry *)

Definition addRule (rule : AutomationRule) (e : AutomationEngine) : AutomationEngine :=
  {| rules := Map_set (rules e) (id rule) rule; isEnabled := isEnabled e |}.

Definition removeRule (ruleId : string) (e : AutomationEngine) : AutomationEngine :=
  {| rules := Map_delete (rules e) ruleId; isEnabled := isEnabled e |}.

Definition set_enabled (rule : AutomationRule) (b : bool) : AutomationRule :=
  {| id := id rule; name := name rule; description := description rule;
     trigger := trigger rule; conditions := conditions rule;
     actions := actions rule; enabled := b |}.

(** [rule.enabled = b] on the rule stored under [ruleId], when there is one. *)
Definition enableRule (ruleId : string) (e : AutomationEngine) : AutomationEngine :=
  match Map_get (rules e) ruleId with
  | Some rule =>
      {| rules := Map_set (rules e) ruleId (set_enabled rule true);
         isEnabled := isEnabled e |}
  | None => e
  end.

Definition disableRule (ruleId : string) (e : AutomationEngine) : AutomationEngine :=
  match Map_get (rules e) ruleId with
  | Some rule =>
      {| rules := Map_set (rules e) ruleId (set_enabled rule false);
         isEnabled := isEnabled e |}
  | None => e
  end.

Definition getRules (e : AutomationEngine) : list AutomationRule :=
  Map_values (rules e).

Definition getRule (ruleId : string) (e : AutomationEngine) : option AutomationRule :=
  Map_get (rules e) ruleId.

Definition setEnabled (enabled : bool) (e : AutomationEngine) : AutomationEngine :=
  {| rules := rules e; isEnabled := enabled |}.

Definition isAutomationEnabled (e : AutomationEngine) : bool := isEnabled e.

(** [new AutomationEngine(app, settings)], from [settings.enableAutomation]. *)
Definition new_AutomationEngine (enableAutomation : bool) : AutomationEngine :=
  {| rules := []; isEnabled := enableAutomation |}.

(** *** The default rules

    [nowISO] is [new Date().toISOString()] at the time of the call. *)

Definition overdue_task_notification (nowISO : string) : AutomationRule :=
  {| id := "overdue-task-notification";
     name := "Overdue Task Notification";
     description := "Send notification when tasks become overdue";
     trigger := {| trigger_type := "daily_schedule"; trigger_parameters := None |};
     conditions :=
       [ {| field := "dueDate"; operator := "less_than"; value := VString nowISO |};
         {| field := "status"; operator := "not_equals"; value := VString "done" |} ];
     actions :=
       [ {| action_type := "send_notification";
            action_parameters := [("message", VString "You have overdue tasks!")] |} ];
     enabled := true |}.

Definition task_completion_milestone : AutomationRule :=
  {| id := "task-completion-milestone";
     name := "Check Milestones on Task Completion";
     description := "Check if milestones are reached when tasks are completed";
     trigger := {| trigger_type := "task_completed"; trigger_parameters := None |};
     conditions := [];
     actions :=
       [ {| action_type := "update_status";
            action_parameters := [("type", VString "milestone")] |} ];
     enabled := true |}.

Definition high_priority_notification : AutomationRule :=
  {| id := "high-priority-notification";
     name := "High Priority Task Alert";
     description := "Send immediate notification for high priority tasks";
     trigger := {| trigger_type := "task_created"; trigger_parameters := None |};
     conditions :=
       [ {| field := "priority"; operator := "equals"; value := VString "high" |} ];
     actions :=
       [ {| action_type := "send_notification";
            action_parameters :=
              [("message", VString "High priority task created: {{task.title}}")] |} ];
     enabled := true |}.

Definition defaultRules (nowISO : string) : list AutomationRule :=
  [ overdue_task_notification nowISO;
    task_completion_milestone;
    high_priority_notification ].

Definition loadDefaultRules (nowISO : string) (e : AutomationEngine) : AutomationEngine :=
  fold_left
    (fun e rule =>
       {| rules := Map_set (rules e) (id rule) rule; isEnabled := isEnabled e |})
    (defaultRules nowISO) e.

(* ------------------------------------------------------------------ *)
(** ** The daily scheduler

    Time values are milliseconds since the epoch, as [Date.prototype.getTime]
    returns them.  A time zone gives the offset of local time from UTC, which
    may change from one instant to another (daylight saving).  A timer runs
    its callback exactly when it is due and the callback takes no time. *)

(** A time zone, as the [Date] methods use it: [offset_at t] is the offset of
    local time at the instant [t], and [offset_of_local t] the offset by
    which the local time [t] is read as an instant (where a change of offset
    repeats or skips local times, the zone chooses). *)
Record TimeZone : Type := {
  offset_at : Z -> Z;
  offset_of_local : Z -> Z
}.

(** The zone of a constant offset; a number stands for that zone. *)
Definition fixed_offset (LocalTZA : Z) : TimeZone :=
  {| offset_at := fun _ => LocalTZA; offset_of_local := fun _ => LocalTZA |}.

Coercion fixed_offset : Z >-> TimeZone.

Module Scheduler.

Local Open Scope Z_scope.

Definition msPerHour : Z := 60 * 60 * 1000.
Definition msPerDay : Z := 24 * 60 * 60 * 1000.

Definition Day (t : Z) : Z := t / msPerDay.
Definition TimeWithinDay (t : Z) : Z := t mod msPerDay.
Definition MakeTime (hour min sec ms : Z) : Z :=
  hour * msPerHour + min * (60 * 1000) + sec * 1000 + ms.
Definition MakeDate (day time : Z) : Z := day * msPerDay + time.

(** The local time of an instant, and the instant of a local time. *)
Definition LocalTime (zone : TimeZone) (t : Z) : Z := t + offset_at zone t.
Definition UTC (zone : TimeZone) (t : Z) : Z := t - offset_of_local zone t.

Record Date : Type := { getTime : Z }.

(** [d.setDate(d.getDate() + 1)]: the same local time of day on the
    following calendar day, read as an instant; months and years roll
    over. *)
Definition setDate_getDate_plus_1 (zone : TimeZone) (d : Date) : Date :=
  let t := LocalTime zone (getTime d) in
  {| getTime := UTC zone (MakeDate (Day t + 1) (TimeWithinDay t)) |}.

(** [d.setHours(hour, min, sec, ms)] *)
Definition setHours (zone : TimeZone) (d : Date) (hour min sec ms : Z) : Date :=
  let t := LocalTime zone (getTime d) in
  {| getTime := UTC zone (MakeDate (Day t) (MakeTime hour min sec ms)) |}.

(** The delay handed to [setTimeout]. *)
Definition msUntilTomorrow (zone : TimeZone) (now : Date) : Z :=
  let tomorrow := {| getTime := getTime now |} in
  let tomorrow := setDate_getDate_plus_1 zone tomorrow in
  let tomorrow := setHours zone tomorrow 9 0 0 0 in
  getTime tomorrow - getTime now.

(** The scheduler holds one timer: the timeout set by [setupDailySchedule],
    then the interval set by the callback of that timeout. *)
Inductive timer : Type :=
| Timeout (due : Z)
| Interval (due period : Z).

Definition setupDailySchedule (zone : TimeZone) (now : Date) : timer :=
  Timeout (getTime now + msUntilTomorrow zone now).

(** The timer runs: the time at which [runDailyAutomation] is called, and
    the timer that is pending afterwards. *)
Definition fire (t : timer) : Z * timer :=
  match t with
  | Timeout due => (due, Interval (due + 24 * 60 * 60 * 1000) (24 * 60 * 60 * 1000))
  | Interval due period => (due, Interval (due + period) period)
  end.

(** The time of the call number [n] of [runDailyAutomation], from 0. *)
Fixpoint fire_time (n : nat) (t : timer) : Z :=
  match n with
  | O => fst (fire t)
  | S n' => fire_time n' (snd (fire t))
  end.

(** The specification's rule, in its words: the next occurrence of the
    target hour strictly after now; tomorrow's when now is already past
    today's. *)
Definition todays_target_hour (zone : TimeZone) (now : Date) : Z :=
  UTC zone (MakeDate (Day (LocalTime zone (getTime now))) (MakeTime 9 0 0 0)).

Definition tomorrows_target_hour (zone : TimeZone) (now : Date) : Z :=
  UTC zone (MakeDate (Day (LocalTime zone (getTime now)) + 1) (MakeTime 9 0 0 0)).

Definition next_occurrence_of_target_hour (zone : TimeZone) (now : Date) : Z :=
  if getTime now <? todays_target_hour zone now
  then todays_target_hour zone now
  else tomorrows_target_hour zone now.

(** What the zone does with a local time [t] that the code builds.  The
    zone keeps [t] on its day when the instant of [t], read back, falls on
    the day of [t]; it keeps [t] itself when [t] reads back as written, that
    is when no change of offset skips [t]. *)
Definition keeps_local_day (zone : TimeZone) (t : Z) : Prop :=
  Day (LocalTime zone (UTC zone t)) = Day t.

Definition keeps_local_time (zone : TimeZone) (t : Z) : Prop :=
  LocalTime zone (UTC zone t) = t.

End Scheduler.

(* ------------------------------------------------------------------ *)
(** ** Outcomes, exceptions and observable events *)

Inductive exn : Type :=
| TypeError (message : string)
| HostError (message : string).

Inductive outcome (A : Type) : Type :=
| Returned (a : A)
| Thrown (e : exn).
Arguments Returned {A} a.
Arguments Thrown {A} e.

(** An argument of a [console] call. *)
Inductive logarg : Type :=
| LText (s : string)
| LError (e : exn)
| LNotice.

(** What one run of the engine does, in order.  [Console], [NewNotice] and
    [VaultCreate] are the calls the source makes.  The three [Mark_] events
    are instrumentation: they record that the dispatcher reached
    [evaluateConditions(rule.conditions, _)], [executeActions(rule.actions, _)]
    and [executeAction(action, _)]; nothing in the engine reads them. *)
Inductive event : Type :=
| Console (level : string) (args : list logarg)
| NewNotice (message : string)
| VaultCreate (path content : string)
| Mark_evaluateConditions (rule : AutomationRule)
| Mark_executeActions (rule : AutomationRule)
| Mark_executeAction (action : AutomationAction).

(* ------------------------------------------------------------------ *)
(** ** The regular expression of the interpolator

    [/\{\{([^}]+)\}\}/]: two opening braces, a non-empty run of characters
    other than the closing brace, two closing braces.  The run is greedy, and
    giving characters back cannot help: the character after a shorter run is
    not a closing brace.  So an attempt at a position succeeds exactly when
    the longest run is non-empty and is followed by two closing braces. *)

Fixpoint span_not_rbrace (s : string) : string * string :=
  match s with
  | EmptyString => (EmptyString, EmptyString)
  | String c s' =>
      if Ascii.eqb c "}" then (EmptyString, s)
      else let (run, rest) := span_not_rbrace s' in (String c run, rest)
  end.

(** The match attempt at the start of [s]: the captured group and what
    follows the match. *)
Definition match_here (s : string) : option (string * string) :=
  match s with
  | String c1 (String c2 s1) =>
      if Ascii.eqb c1 "{" && Ascii.eqb c2 "{" then
        match span_not_rbrace s1 with
        | (String p ps, String d1 (String d2 rest)) =>
            if Ascii.eqb d1 "}" && Ascii.eqb d2 "}"
            then Some (String p ps, rest) else None
        | _ => None
        end
      else None
  | _ => None
  end.

(** [s.replace(/\{\{([^}]+)\}\}/g, replacer)]: matches are searched from left
    to right, the search resumes after each match, and what the replacer
    returns is inserted as it is.  [fuel] bounds the number of steps; the
    length of [s] is enough ([replace_all_from_fuel] below). *)
Fixpoint replace_all_from (fuel : nat) (replacer : string -> string -> string)
    (s : string) : string :=
  match fuel with
  | O => s
  | S fuel' =>
      match s with
      | EmptyString => EmptyString
      | String c s' =>
          match match_here s with
          | Some (path, rest) =>
              replacer ("{{" ++ path ++ "}}") path
              ++ replace_all_from fuel' replacer rest
          | None => String c (replace_all_from fuel' replacer s')
          end
      end
  end.

Definition replace_all (replacer : string -> string -> string) (s : string) : string :=
  replace_all_from (String.length s) replacer s.

(* ------------------------------------------------------------------ *)
(** ** The engine *)

(** The JavaScript runtime.  [builtin_member v key] is what [v[key]] finds
    when [key] is not an own property of [v] (members of prototypes, the
    length and the indices of a string); [Number_toString] and
    [Object_toString] are [String(v)] on a number and on an object. *)
Class Runtime : Type := {
  builtin_member : jsval -> string -> jsval;
  Number_toString : float -> string;
  Object_toString : Heap -> loc -> string
}.

(** The host application: its state, and the two calls that can fail,
    [new Notice(message)] and [app.vault.create(path, content)]. *)
Class Host : Type := {
  World : Type;
  new_Notice : string -> World -> outcome unit * World;
  vault_create : string -> string -> World -> outcome unit * World
}.

Section Engine.

Context {runtime : Runtime} {host : Host}.

(** *** Reading the context *)

(** [v[key]] on a value that is neither [undefined] nor [null]. *)
Definition get_property (h : Heap) (v : jsval) (key : string) : jsval :=
  match v with
  | VObject l =>
      match heap_lookup h l with
      | Some o =>
          match own_property o key with
          | Some x => x
          | None => builtin_member v key
          end
      | None => VUndefined
      end
  | _ => builtin_member v key
  end.

(** [v?.[key]] *)
Definition optional_member (h : Heap) (v : jsval) (key : string) : jsval :=
  match v with
  | VUndefined | VNull => VUndefined
  | _ => get_property h v key
  end.

(** The loop of [getFieldValue]: [value = value?.[part]], leaving the loop
    as soon as [value] is [undefined]. *)
Fixpoint descend (h : Heap) (value : jsval) (fieldParts : list string) : jsval :=
  match fieldParts with
  | [] => value
  | part :: rest =>
      match optional_member h value part with
      | VUndefined => VUndefined
      | value' => descend h value' rest
      end
  end.

Definition getFieldValue (h : Heap) (context : jsval) (field : string) : jsval :=
  descend h context (split "." field).

(** *** The condition evaluator *)

Definition evaluateCondition (fieldValue : jsval) (operator : string)
    (conditionValue : jsval) : bool :=
  if operator =? "equals" then
    strict_equals fieldValue conditionValue
  else if operator =? "not_equals" then
    negb (strict_equals fieldValue conditionValue)
  else if operator =? "contains" then
    (typeof fieldValue =? "string") && (typeof conditionValue =? "string") &&
    match fieldValue, conditionValue with
    | VString s, VString t => includes s t
    | _, _ => false
    end
  else if operator =? "greater_than" then
    negb (strict_equals fieldValue VUndefined) &&
    (typeof fieldValue =? "number") && (typeof conditionValue =? "number") &&
    match fieldValue, conditionValue with
    | VNumber a, VNumber b => PrimFloat.ltb b a
    | _, _ => false
    end
  else if operator =? "less_than" then
    negb (strict_equals fieldValue VUndefined) &&
    (typeof fieldValue =? "number") && (typeof conditionValue =? "number") &&
    match fieldValue, conditionValue with
    | VNumber a, VNumber b => PrimFloat.ltb a b
    | _, _ => false
    end
  else if operator =? "is_empty" then
    negb (truthy fieldValue) ||
    ((typeof fieldValue =? "string") &&
     match fieldValue with
     | VString s => (String.length s =? 0)%nat
     | _ => false
     end)
  else if operator =? "is_not_empty" then
    negb (strict_equals fieldValue VUndefined) &&
    negb (strict_equals fieldValue VNull) &&
    (negb (typeof fieldValue =? "string") ||
     match fieldValue with
     | VString s => (0 <? String.length s)%nat
     | _ => false
     end)
  else false.

(** *** The template interpolator *)

(** [String(v)] *)
Definition js_String (h : Heap) (v : jsval) : string :=
  match v with
  | VUndefined => "undefined"
  | VNull => "null"
  | VBoolean true => "true"
  | VBoolean false => "false"
  | VNumber n => Number_toString n
  | VString s => s
  | VObject l => Object_toString h l
  end.

(** The arrow function handed to [replace]. *)
Definition replacer (h : Heap) (context : jsval) (match_ path : string) : string :=
  match getFieldValue h context (trim path) with
  | VUndefined => match_
  | value => js_String h value
  end.

(** [interpolateString] on a template that is a string. *)
Definition interpolateString (h : Heap) (template : string) (context : jsval) : string :=
  replace_all (replacer h context) template.

(** *** Computations *)

Record machine : Type := {
  this : AutomationEngine;
  heap : Heap;
  world : World
}.

(** A computation returns or throws, leaves a machine and a list of events
    behind.  What happened before a [throw] stays. *)
Definition M (A : Type) : Type := machine -> outcome A * machine * list event.

Definition ret {A} (a : A) : M A := fun m => (Returned a, m, []).

Definition throw {A} (e : exn) : M A := fun m => (Thrown e, m, []).

Definition bind {A B} (c : M A) (k : A -> M B) : M B :=
  fun m =>
    match c m with
    | (Returned a, m1, t1) =>
        match k a m1 with (r, m2, t2) => (r, m2, (t1 ++ t2)%list) end
    | (Thrown e, m1, t1) => (Thrown e, m1, t1)
    end.

(** [try { c } catch (error) { handler error }] *)
Definition try_catch (c : M unit) (handler : exn -> M unit) : M unit :=
  fun m =>
    match c m with
    | (Returned a, m1, t1) => (Returned a, m1, t1)
    | (Thrown e, m1, t1) =>
        match handler e m1 with (r, m2, t2) => (r, m2, (t1 ++ t2)%list) end
    end.

Definition emit (e : event) : M unit := fun m => (Returned tt, m, [e]).

Definition get_this : M AutomationEngine := fun m => (Returned (this m), m, []).

Definition get_heap : M Heap := fun m => (Returned (heap m), m, []).

(** A call into the host: only the world changes. *)
Definition host_call (f : World -> outcome unit * World) : M unit :=
  fun m =>
    match f (world m) with
    | (r, w) => (r, {| this := this m; heap := heap m; world := w |}, [])
    end.

(** [for (const x of xs) { body x }] *)
Fixpoint for_of {A} (xs : list A) (body : A -> M unit) : M unit :=
  match xs with
  | [] => ret tt
  | x :: xs' => bind (body x) (fun _ => for_of xs' body)
  end.

Local Notation "x <- c ;; k" := (bind c (fun x => k))
  (at level 100, c at next level, right associativity).
Local Notation "c ;;; k" := (bind c (fun _ => k))
  (at level 100, right associativity).

Definition console_log (args : list logarg) : M unit := emit (Console "log" args).
Definition console_warn (args : list logarg) : M unit := emit (Console "warn" args).
Definition console_error (args : list logarg) : M unit := emit (Console "error" args).

(** [parameters.key] on a parameter bag. *)
Definition parameter (parameters : object) (key : string) : jsval :=
  match own_property parameters key with
  | Some v => v
  | None => VUndefined
  end.

(** [v.key]: a [TypeError] on [undefined] and [null]. *)
Definition member (v : jsval) (key : string) : M jsval :=
  match v with
  | VUndefined | VNull =>
      throw (TypeError "Cannot read properties of undefined or null")
  | _ => h <- get_heap ;; ret (get_property h v key)
  end.

(** [this.interpolateString(p as string, context)]: the cast is not
    checked, and a value that is not a string has no [replace] to call. *)
Definition call_interpolateString (template context : jsval) : M string :=
  match template with
  | VString s => h <- get_heap ;; ret (interpolateString h s context)
  | _ => throw (TypeError "template.replace is not a function")
  end.

(** *** The action executor *)

Definition sendNotification (parameters : object) (context : jsval) : M unit :=
  message <- call_interpolateString (parameter parameters "message") context ;;
  emit (NewNotice message) ;;;
  host_call (new_Notice message) ;;;
  console_log [LText "Notification created for message:"; LText message; LNotice].

Definition createTask (parameters : object) (context : jsval) : M unit :=
  title <- call_interpolateString (parameter parameters "title") context ;;
  console_log [LText ("Automation: Creating task " ++ double_quote ++ title ++ double_quote)].

Definition updateTask (parameters : object) (context : jsval) : M unit :=
  taskId <- match parameter parameters "taskId" with
            | VUndefined | VNull =>
                task <- member context "task" ;;
                h <- get_heap ;;
                ret (optional_member h task "id")
            | v => ret v
            end ;;
  if truthy taskId then
    h <- get_heap ;;
    console_log [LText ("Automation: Updating task " ++ js_String h taskId)]
  else ret tt.

Definition createNote (parameters : object) (context : jsval) : M unit :=
  content <- call_interpolateString (parameter parameters "content") context ;;
  path <- call_interpolateString (parameter parameters "path") context ;;
  try_catch
    (emit (VaultCreate path content) ;;; host_call (vault_create path content))
    (fun error =>
       console_error [LText "Error creating note via automation:"; LError error]).

Definition updateStatus (parameters : object) (context : jsval) : M unit :=
  let type := parameter parameters "type" in
  if strict_equals type (VString "milestone") then
    console_log [LText "Automation: Checking milestone completion"]
  else ret tt.

Definition executeAction (action : AutomationAction) (context : jsval) : M unit :=
  let type := action_type action in
  if type =? "send_notification" then sendNotification (action_parameters action) context
  else if type =? "create_task" then createTask (action_parameters action) context
  else if type =? "update_task" then updateTask (action_parameters action) context
  else if type =? "create_note" then createNote (action_parameters action) context
  else if type =? "update_status" then updateStatus (action_parameters action) context
  else console_warn [LText ("Unknown automation action type: " ++ type)].

Definition executeActions (actions : list AutomationAction) (context : jsval) : M unit :=
  for_of actions (fun action =>
    try_catch
      (emit (Mark_executeAction action) ;;; executeAction action context)
      (fun error =>
         console_error [LText "Error executing automation action:"; LError error])).

(** *** The trigger dispatcher *)

(** The loop of [evaluateConditions]. *)
Fixpoint evaluateConditions_loop (conditions : list AutomationCondition)
    (context : jsval) : M bool :=
  match conditions with
  | [] => ret true
  | condition :: rest =>
      h <- get_heap ;;
      let fieldValue := getFieldValue h context (field condition) in
      if negb (evaluateCondition fieldValue (operator condition) (value condition))
      then ret false
      else evaluateConditions_loop rest context
  end.

Definition evaluateConditions (conditions : list AutomationCondition)
    (context : jsval) : M bool :=
  if (List.length conditions =? 0)%nat then ret true
  else evaluateConditions_loop conditions context.

(** The snapshot [Array.from(this.rules.values()).filter(...)]. *)
Definition applicableRules (e : AutomationEngine) (triggerType : string)
    : list AutomationRule :=
  filter (fun rule => enabled rule && (trigger_type (trigger rule) =? triggerType))
         (Map_values (rules e)).

Definition triggerAutomation (triggerType : string) (context : jsval) : M unit :=
  e <- get_this ;;
  if negb (isEnabled e) then ret tt
  else
    for_of (applicableRules e triggerType) (fun rule =>
      emit (Mark_evaluateConditions rule) ;;;
      ok <- evaluateConditions (conditions rule) context ;;
      if ok then
        emit (Mark_executeActions rule) ;;;
        executeActions (actions rule) context
      else ret tt).

(* ---------------------------------------------------------------- *)
(** ** Vocabulary of the properties *)

(** The three components of a run. *)
Definition result {A} (x : outcome A * machine * list event) : outcome A := fst (fst x).
Definition final {A} (x : outcome A * machine * list event) : machine := snd (fst x).
Definition trace {A} (x : outcome A * machine * list event) : list event := snd x.

(** The instrumentation events of a trace, in order. *)
Definition is_mark (e : event) : bool :=
  match e with
  | Mark_evaluateConditions _ | Mark_executeActions _ | Mark_executeAction _ => true
  | _ => false
  end.

Definition marks (t : list event) : list event := filter is_mark t.

(** A condition list as the specification reads it: the conjunction of its
    conditions on the resolved fields, true when the list is empty. *)
Definition conditions_hold (h : Heap) (context : jsval)
    (conditions : list AutomationCondition) : bool :=
  forallb
    (fun c => evaluateCondition (getFieldValue h context (field c)) (operator c) (value c))
    conditions.

(** What the dispatcher is expected to do with one selected rule. *)
Definition rule_marks (h : Heap) (context : jsval) (rule : AutomationRule) : list event :=
  Mark_evaluateConditions rule ::
  (if conditions_hold h context (conditions rule)
   then Mark_executeActions rule :: map Mark_executeAction (actions rule)
   else []).

(** The body of the loop of [triggerAutomation]. *)
Definition dispatch_rule (context : jsval) (rule : AutomationRule) : M unit :=
  bind (emit (Mark_evaluateConditions rule)) (fun _ =>
  bind (evaluateConditions (conditions rule) context) (fun ok =>
    if ok then
      bind (emit (Mark_executeActions rule)) (fun _ =>
      executeActions (actions rule) context)
    else ret tt)).

(** The actions on which [executeAction] was called, in order. *)
Definition attempted_actions (t : list event) : list AutomationAction :=
  flat_map (fun e => match e with Mark_executeAction a => [a] | _ => [] end) t.

(** A computation that leaves the engine and the heap as they are and
    reaches none of the instrumented places. *)
Definition quiet {A} (c : M A) : Prop :=
  forall m,
    this (final (c m)) = this m /\
    heap (final (c m)) = heap m /\
    marks (trace (c m)) = [].

(** A token, as the specification writes it: two opening braces, a path,
    two closing braces, where the path is not empty and holds no closing
    brace. *)
Fixpoint no_rbrace (s : string) : bool :=
  match s with
  | EmptyString => true
  | String c s' => negb (Ascii.eqb c "}") && no_rbrace s'
  end.

Definition token (path : string) : string := "{{" ++ path ++ "}}".

Definition is_path (path : string) : Prop :=
  path <> "" /\ no_rbrace path = true.





(* ---------------------------------------------------------------- *)
(** ** Start-up and the daily run *)

(** A call into the host that returns a value. *)
Definition host_ask {A} (f : World -> outcome A * World) : M A :=
  fun m =>
    match f (world m) with
    | (r, w) => (r, {| this := this m; heap := heap m; world := w |}, [])
    end.

(** An assignment to the fields of [this]. *)
Definition put_this (e : AutomationEngine) : M unit :=
  fun m => (Returned tt, {| this := e; heap := heap m; world := world m |}, []).

(** An address no object of the heap has. *)
Definition fresh (h : Heap) : loc :=
  S (fold_right (fun entry acc => Nat.max (fst entry) acc) 0%nat h).

(** An object literal: a new object at a new address. *)
Definition new_object (o : object) : M jsval :=
  fun m =>
    let l := fresh (heap m) in
    (Returned (VObject l),
     {| this := this m; heap := (l, o) :: heap m; world := world m |}, []).

(** [loadCustomRules]: it asks the vault for the folder
    [<projectsFolder>/Automation] and does nothing with the answer.
    [getAbstractFileByPath] is the call of the host, which tells whether the
    path exists. *)
Definition loadCustomRules
    (getAbstractFileByPath : string -> World -> outcome bool * World)
    (projectsFolder : string) : M unit :=
  try_catch
    (let automationFolder := projectsFolder ++ "/Automation" in
     folder <- host_ask (getAbstractFileByPath automationFolder) ;;
     if folder then ret tt else ret tt)
    (fun error =>
       console_error [LText "Error loading custom automation rules:"; LError error]).

(** [initialize].  [nowISO] and [now] are the two readings of the clock, in
    [loadDefaultRules] and in [setupDailySchedule]; the value returned is the
    timer that the call has set, if any. *)
Definition initialize
    (getAbstractFileByPath : string -> World -> outcome bool * World)
    (projectsFolder nowISO : string) (zone : TimeZone) (now : Scheduler.Date)
    : M (option Scheduler.timer) :=
  e <- get_this ;;
  if negb (isEnabled e) then ret None
  else
    put_this (loadDefaultRules nowISO e) ;;;
    loadCustomRules getAbstractFileByPath projectsFolder ;;;
    ret (Some (Scheduler.setupDailySchedule zone now)).

(** [runDailyAutomation], called by the timer at a time whose ISO form is
    [nowISO]. *)
Definition runDailyAutomation (nowISO : string) : M unit :=
  context <- new_object [("date", VString nowISO); ("type", VString "daily_check")] ;;
  triggerAutomation "daily_schedule" context.

(* ---------------------------------------------------------------- *)
(** ** More vocabulary *)

(** The machine [m] with [e] as its engine. *)
Definition with_this (e : AutomationEngine) (m : machine) : machine :=
  {| this := e; heap := heap m; world := world m |}.

(** A computation that does not depend on the engine and leaves it alone:
    run on another engine, it does the same and leaves that engine. *)
Definition ignores_this {A} (c : M A) : Prop :=
  forall (m : machine) (e : AutomationEngine),
    c (with_this e m) =
    match c m with (r, m', t) => (r, with_this e m', t) end.

(** A computation that only logs or throws: the machine it leaves is the one
    it found. *)
Definition only_logs {A} (c : M A) : Prop :=
  forall m : machine, final (c m) = m.

(** The registry keeps every rule under its own id, and no id twice. *)
Definition registry_ok (e : AutomationEngine) : Prop :=
  Forall (fun entry => fst entry = id (snd entry)) (rules e) /\
  NoDup (map fst (rules e)).

(** An operator that [evaluateCondition] knows. *)
Definition known_operator (operator : string) : bool :=
  existsb (String.eqb operator)
    ["equals"; "not_equals"; "contains"; "greater_than"; "less_than";
     "is_empty"; "is_not_empty"].

(** An action type that [executeAction] handles. *)
Definition handled_action_type (type : string) : bool :=
  existsb (String.eqb type)
    ["send_notification"; "create_task"; "update_task"; "create_note"; "update_status"].

(** [t] occurs in [s]. *)
Definition substring_of (t s : string) : Prop :=
  exists before after, s = before ++ t ++ after.

(** The paths of the tokens of [s], at whatever position they stand. *)
Fixpoint token_paths (s : string) : list string :=
  match s with
  | EmptyString => []
  | String _ s' =>
      match match_here s with
      | Some (path, _) => path :: token_paths s'
      | None => token_paths s'
      end
  end.


End Engine.

(* ------------------------------------------------------------------ *)
(** ** Sample data for the worked examples *)

(** The context [{ task: { title: "Write report", priority: "high" },
    count: 3, note: "" }], at address 0, its [task] object at address 1; the
    empty context [{}] at address 2; at address 3 the context of the
    specification's scenario, [{ task: { priority: "high" } }], with its
    [task] object at address 4. *)
Definition sample_heap : Heap :=
  [ (0, [("task", VObject 1); ("count", VNumber 3%float); ("note", VString "")]);
    (1, [("title", VString "Write report"); ("priority", VString "high")]);
    (2, []);
    (3, [("task", VObject 4)]);
    (4, [("priority", VString "high")]) ].

(** A runtime without inherited members, right on the numbers of the samples. *)
Definition sample_runtime : Runtime :=
  {| builtin_member := fun _ _ => VUndefined;
     Number_toString := fun n => if PrimFloat.eqb n 3%float then "3" else "NaN";
     Object_toString := fun _ _ => "[object Object]" |}.

(** A host that keeps the notices it has shown, latest first, in which
    [new Notice] fails on the message ["fail"] and [vault.create] always
    fails. *)
Definition sample_host : Host :=
  {| World := list string;
     new_Notice := fun message w =>
       if message =? "fail" then (Thrown (HostError "Notice failed"), w)
       else (Returned tt, message :: w);
     vault_create := fun path content w =>
       (Thrown (HostError "File already exists"), w) |}.

Definition on_task_created : AutomationTrigger :=
  {| trigger_type := "task_created"; trigger_parameters := None |}.

Definition notify (message : string) : AutomationAction :=
  {| action_type := "send_notification";
     action_parameters := [("message", VString message)] |}.

(** A disabled rule on [task_created]. *)
Definition sample_disabled_rule : AutomationRule :=
  {| id := "disabled"; name := "Disabled"; description := "";
     trigger := on_task_created; conditions := [];
     actions := [notify "from the disabled rule"]; enabled := false |}.

(** A rule whose first action fails in the sample host. *)
Definition sample_failing_rule : AutomationRule :=
  {| id := "failing"; name := "Failing"; description := "";
     trigger := on_task_created; conditions := [];
     actions := [notify "fail"; notify "Task {{task.title}}"]; enabled := true |}.

Definition sample_following_rule : AutomationRule :=
  {| id := "following"; name := "Following"; description := "";
     trigger := on_task_created; conditions := [];
     actions := [notify "from the following rule"]; enabled := true |}.

Definition sample_engine : AutomationEngine :=
  addRule sample_following_rule
    (addRule sample_failing_rule
       (addRule sample_disabled_rule
          (loadDefaultRules "2026-11-01T08:00:00.000Z" (new_AutomationEngine true)))).

Definition sample_machine : @machine sample_host :=
  @Build_machine sample_host sample_engine sample_heap [].

(** A zone whose clocks go back one hour during the night from day 0 to
    day 1, as in New York in autumn: local time is four hours behind UTC up to
    06:00 UTC of day 1 and five hours behind from then on.  A local time
    before 02:00 of day 1 is read with the earlier offset, the repeated hour
    included. *)
Definition sample_zone : TimeZone :=
  {| offset_at := fun t =>
       if (t <? 30 * 3600000)%Z then (-4 * 3600000)%Z else (-5 * 3600000)%Z;
     offset_of_local := fun t =>
       if (t <? 26 * 3600000)%Z then (-4 * 3600000)%Z else (-5 * 3600000)%Z |}.

(* ------------------------------------------------------------------ *)
(** * Properties *)

Section Properties.

Context {runtime : Runtime} {host : Host}.

(* ---------------------------------------------------------------- *)
(** ** Properties of the condition evaluator *)

Lemma evaluateCondition_greater_than (fieldValue conditionValue : jsval) :
  evaluateCondition fieldValue "greater_than" conditionValue = true <->
  exists a b, fieldValue = VNumber a /\ conditionValue = VNumber b /\
              PrimFloat.ltb b a = true.
Proof.
  unfold evaluateCondition; simpl. split.
  - destruct fieldValue, conditionValue; simpl; intros H; try discriminate H.
    eauto.
  - intros (a & b & -> & -> & H). simpl. exact H.
Qed.

Lemma evaluateCondition_less_than (fieldValue conditionValue : jsval) :
  evaluateCondition fieldValue "less_than" conditionValue = true <->
  exists a b, fieldValue = VNumber a /\ conditionValue = VNumber b /\
              PrimFloat.ltb a b = true.
Proof.
  unfold evaluateCondition; simpl. split.
  - destruct fieldValue, conditionValue; simpl; intros H; try discriminate H.
    eauto.
  - intros (a & b & -> & -> & H). simpl. exact H.
Qed.

(** C4.  [greater_than] and [less_than] hold exactly when the field value
    and the literal are both numbers and the comparison of the two doubles
    holds; when one of them is not a number, [undefined] included, the
    result is [false].  [evaluateCondition] is a total function to [bool]:
    there is no input on which it throws. *)
Theorem comparison_operators_need_numbers :
  forall fieldValue conditionValue : jsval,
    (evaluateCondition fieldValue "greater_than" conditionValue = true <->
     exists a b, fieldValue = VNumber a /\ conditionValue = VNumber b /\
                 PrimFloat.ltb b a = true) /\
    (evaluateCondition fieldValue "less_than" conditionValue = true <->
     exists a b, fieldValue = VNumber a /\ conditionValue = VNumber b /\
                 PrimFloat.ltb a b = true) /\
    (typeof fieldValue <> "number" \/ typeof conditionValue <> "number" ->
     evaluateCondition fieldValue "greater_than" conditionValue = false /\
     evaluateCondition fieldValue "less_than" conditionValue = false).
Proof.
  intros fieldValue conditionValue.
  split; [apply evaluateCondition_greater_than|].
  split; [apply evaluateCondition_less_than|].
  intros H. split.
  - destruct (evaluateCondition fieldValue "greater_than" conditionValue) eqn:E;
      [|reflexivity].
    apply evaluateCondition_greater_than in E.
    destruct E as (a & b & -> & -> & _).
    destruct H as [H|H]; now elim H.
  - destruct (evaluateCondition fieldValue "less_than" conditionValue) eqn:E;
      [|reflexivity].
    apply evaluateCondition_less_than in E.
    destruct E as (a & b & -> & -> & _).
    destruct H as [H|H]; now elim H.
Qed.

Lemma string_length_0 (s : string) : (String.length s =? 0)%nat = (s =? "").
Proof. destruct s; reflexivity. Qed.

(** C5.  For every heap, context, field path and literal, [is_empty] is
    true when the path resolves to [undefined] (a key is missing at some
    depth) and when it resolves to the empty string; it is false when the
    path resolves to a non-empty string or to an object. *)
Theorem is_empty_on_resolved_field :
  forall (h : Heap) (context : jsval) (field : string) (conditionValue : jsval),
    let fieldValue := getFieldValue h context field in
    let result := evaluateCondition fieldValue "is_empty" conditionValue in
    (fieldValue = VUndefined -> result = true) /\
    (fieldValue = VString "" -> result = true) /\
    (forall s, s <> "" -> fieldValue = VString s -> result = false) /\
    (forall l, fieldValue = VObject l -> result = false).
Proof.
  intros h context field0 conditionValue fieldValue result.
  subst result. unfold evaluateCondition; simpl.
  repeat split.
  - intros ->. reflexivity.
  - intros ->. reflexivity.
  - intros s Hs ->. simpl. rewrite string_length_0.
    destruct (String.eqb_spec s ""); [contradiction|reflexivity].
  - intros l ->. reflexivity.
Qed.

(* ---------------------------------------------------------------- *)
(** ** Properties of the template interpolator *)

Lemma append_assoc (a b c : string) : (a ++ b) ++ c = a ++ (b ++ c).
Proof. induction a as [|x a IH]; simpl; [reflexivity|now rewrite IH]. Qed.

Lemma length_append (a b : string) :
  String.length (a ++ b) = (String.length a + String.length b)%nat.
Proof. induction a as [|x a IH]; simpl; [reflexivity|now rewrite IH]. Qed.

Lemma token_append (path rest : string) :
  token path ++ rest = String "{" (String "{" (path ++ String "}" (String "}" rest))).
Proof. unfold token. simpl. now rewrite append_assoc. Qed.

Lemma length_token_append (path rest : string) :
  String.length (token path ++ rest) =
  (4 + String.length path + String.length rest)%nat.
Proof. rewrite token_append. simpl. rewrite length_append. simpl. lia. Qed.

(** The longest run stops at the first closing brace. *)
Lemma span_not_rbrace_append (path rest : string) :
  no_rbrace path = true ->
  span_not_rbrace (path ++ String "}" rest) = (path, String "}" rest).
Proof.
  induction path as [|c path IH]; simpl; intros H.
  - reflexivity.
  - apply andb_true_iff in H. destruct H as [Hc Hp].
    apply negb_true_iff in Hc. rewrite Hc, (IH Hp). reflexivity.
Qed.

Lemma span_not_rbrace_spec (s run rest : string) :
  span_not_rbrace s = (run, rest) ->
  s = run ++ rest /\ no_rbrace run = true.
Proof.
  revert run rest. induction s as [|c s IH]; simpl; intros run rest H.
  - inversion H. split; reflexivity.
  - destruct (Ascii.eqb c "}") eqn:Ec.
    + inversion H. split; reflexivity.
    + destruct (span_not_rbrace s) as [run' rest'] eqn:E.
      inversion H; subst. destruct (IH _ _ eq_refl) as [-> Hn].
      simpl. rewrite Ec, Hn. split; reflexivity.
Qed.

(** The match attempt succeeds on a token ... *)
Lemma match_here_token (path rest : string) :
  is_path path -> match_here (token path ++ rest) = Some (path, rest).
Proof.
  intros [Hne Hnr]. rewrite token_append. unfold match_here. simpl.
  rewrite (span_not_rbrace_append _ _ Hnr).
  destruct path as [|p ps]; [now elim Hne|]. reflexivity.
Qed.

(** ... and only on a token. *)
Lemma match_here_sound (s path rest : string) :
  match_here s = Some (path, rest) -> is_path path /\ s = token path ++ rest.
Proof.
  unfold match_here. intros H.
  destruct s as [|c1 [|c2 s1]]; try discriminate H.
  destruct (Ascii.eqb c1 "{" && Ascii.eqb c2 "{") eqn:E12; [|discriminate H].
  apply andb_true_iff in E12. destruct E12 as [E1 E2].
  apply Ascii.eqb_eq in E1, E2. subst c1 c2.
  destruct (span_not_rbrace s1) as [run after] eqn:Es.
  destruct (span_not_rbrace_spec _ _ _ Es) as [-> Hrun].
  destruct run as [|p ps]; [discriminate H|].
  destruct after as [|d1 [|d2 rest']]; try discriminate H.
  destruct (Ascii.eqb d1 "}" && Ascii.eqb d2 "}") eqn:Ed; [|discriminate H].
  apply andb_true_iff in Ed. destruct Ed as [Ed1 Ed2].
  apply Ascii.eqb_eq in Ed1, Ed2. subst d1 d2.
  inversion H; subst. split.
  - split; [discriminate|exact Hrun].
  - now rewrite token_append.
Qed.


(** A token at the start of a string is read in one way only. *)
Lemma token_unique (p1 r1 p2 r2 : string) :
  is_path p1 -> is_path p2 ->
  token p1 ++ r1 = token p2 ++ r2 -> p1 = p2 /\ r1 = r2.
Proof.
  intros H1 H2 E.
  pose proof (match_here_token p1 r1 H1) as M1.
  rewrite E, (match_here_token p2 r2 H2) in M1.
  inversion M1. split; reflexivity.
Qed.



Lemma replace_all_from_step (f : string -> string -> string) (fuel : nat) (s : string) :
  replace_all_from (S fuel) f s =
  match s with
  | EmptyString => EmptyString
  | String c s' =>
      match match_here s with
      | Some (path, rest) => f (token path) path ++ replace_all_from fuel f rest
      | None => String c (replace_all_from fuel f s')
      end
  end.
Proof. reflexivity. Qed.


(** Fuel beyond the length of the template changes nothing. *)
Lemma replace_all_from_fuel (f : string -> string -> string) :
  forall (fuel1 fuel2 : nat) (s : string),
    (String.length s <= fuel1)%nat -> (String.length s <= fuel2)%nat ->
    replace_all_from fuel1 f s = replace_all_from fuel2 f s.
Proof.
  induction fuel1 as [|fuel1 IH]; intros fuel2 s H1 H2.
  - destruct s; [now destruct fuel2|simpl in H1; lia].
  - destruct s as [|c s']; [now destruct fuel2|].
    destruct fuel2 as [|fuel2]; [simpl in H2; lia|].
    rewrite !replace_all_from_step.
    destruct (match_here (String c s')) as [[path rest]|] eqn:Em.
    + destruct (match_here_sound _ _ _ Em) as [_ Es].
      assert (L := length_token_append path rest). rewrite <- Es in L.
      f_equal. apply IH; lia.
    + f_equal. simpl in H1, H2. apply IH; lia.
Qed.







(* ---------------------------------------------------------------- *)
(** ** Properties of computations *)

Lemma marks_app (t1 t2 : list event) : marks (t1 ++ t2)%list = (marks t1 ++ marks t2)%list.
Proof. apply filter_app. Qed.

Lemma quiet_ret {A} (a : A) : quiet (ret a).
Proof. intros m. repeat split. Qed.

Lemma quiet_throw {A} (e : exn) : quiet (throw (A := A) e).
Proof. intros m. repeat split. Qed.

Lemma quiet_get_heap : quiet get_heap.
Proof. intros m. repeat split. Qed.

Lemma quiet_get_this : quiet get_this.
Proof. intros m. repeat split. Qed.

Lemma quiet_emit (e : event) : is_mark e = false -> quiet (emit e).
Proof.
  intros He m. unfold emit, final, trace, marks; simpl. rewrite He. repeat split.
Qed.

Lemma quiet_host_call (f : World -> outcome unit * World) : quiet (host_call f).
Proof.
  intros m. unfold host_call. destruct (f (world m)) as [r w]. repeat split.
Qed.

Lemma quiet_bind {A B} (c : M A) (k : A -> M B) :
  quiet c -> (forall a, quiet (k a)) -> quiet (bind c k).
Proof.
  intros Hc Hk m. unfold bind.
  destruct (Hc m) as (Ht & Hh & Hm).
  destruct (c m) as [[[a|e] m1] t1]; unfold final, trace in *; simpl in *.
  - destruct (Hk a m1) as (Ht2 & Hh2 & Hm2).
    destruct (k a m1) as [[r m2] t2]; unfold final, trace in *; simpl in *.
    rewrite marks_app, Hm, Hm2. repeat split; congruence.
  - repeat split; assumption.
Qed.

Lemma quiet_try_catch (c : M unit) (handler : exn -> M unit) :
  quiet c -> (forall e, quiet (handler e)) -> quiet (try_catch c handler).
Proof.
  intros Hc Hk m. unfold try_catch.
  destruct (Hc m) as (Ht & Hh & Hm).
  destruct (c m) as [[[a|e] m1] t1]; unfold final, trace in *; simpl in *.
  - repeat split; assumption.
  - destruct (Hk e m1) as (Ht2 & Hh2 & Hm2).
    destruct (handler e m1) as [[r m2] t2]; unfold final, trace in *; simpl in *.
    rewrite marks_app, Hm, Hm2. repeat split; congruence.
Qed.

(** Goals [quiet c] on the code of the engine: follow the structure of [c]. *)
Ltac quiet_step :=
  match goal with
  | |- quiet (bind _ _) => apply quiet_bind; [|intros ?]
  | |- quiet (try_catch _ _) => apply quiet_try_catch; [|intros ?]
  | |- quiet (ret _) => apply quiet_ret
  | |- quiet (throw _) => apply quiet_throw
  | |- quiet get_heap => apply quiet_get_heap
  | |- quiet get_this => apply quiet_get_this
  | |- quiet (host_call _) => apply quiet_host_call
  | |- quiet (emit _) => apply quiet_emit; reflexivity
  | |- quiet (console_log _) => apply quiet_emit; reflexivity
  | |- quiet (console_warn _) => apply quiet_emit; reflexivity
  | |- quiet (console_error _) => apply quiet_emit; reflexivity
  | |- quiet (if ?b then _ else _) => destruct b
  | |- quiet (match ?v with _ => _ end) => destruct v
  end.

Lemma quiet_member (v : jsval) (key : string) : quiet (member v key).
Proof. unfold member. repeat quiet_step. Qed.

Lemma quiet_call_interpolateString (template context : jsval) :
  quiet (call_interpolateString template context).
Proof. unfold call_interpolateString. repeat quiet_step. Qed.

Lemma quiet_sendNotification (parameters : object) (context : jsval) :
  quiet (sendNotification parameters context).
Proof.
  unfold sendNotification.
  apply quiet_bind; [apply quiet_call_interpolateString|intros message].
  repeat quiet_step.
Qed.

Lemma quiet_createTask (parameters : object) (context : jsval) :
  quiet (createTask parameters context).
Proof.
  unfold createTask.
  apply quiet_bind; [apply quiet_call_interpolateString|intros title].
  repeat quiet_step.
Qed.

Lemma quiet_updateTask (parameters : object) (context : jsval) :
  quiet (updateTask parameters context).
Proof.
  unfold updateTask.
  apply quiet_bind.
  - destruct (parameter parameters "taskId");
      try apply quiet_ret;
      (apply quiet_bind; [apply quiet_member|intros task; repeat quiet_step]).
  - intros taskId. repeat quiet_step.
Qed.

Lemma quiet_createNote (parameters : object) (context : jsval) :
  quiet (createNote parameters context).
Proof.
  unfold createNote.
  apply quiet_bind; [apply quiet_call_interpolateString|intros content].
  apply quiet_bind; [apply quiet_call_interpolateString|intros path].
  repeat quiet_step.
Qed.

Lemma quiet_updateStatus (parameters : object) (context : jsval) :
  quiet (updateStatus parameters context).
Proof. unfold updateStatus. cbv zeta. repeat quiet_step. Qed.

Lemma quiet_executeAction (action : AutomationAction) (context : jsval) :
  quiet (executeAction action context).
Proof.
  unfold executeAction. cbv zeta.
  repeat match goal with
         | |- quiet (if ?b then _ else _) => destruct b
         end;
    auto using quiet_sendNotification, quiet_createTask, quiet_updateTask,
               quiet_createNote, quiet_updateStatus.
  apply quiet_emit; reflexivity.
Qed.

(* ---------------------------------------------------------------- *)
(** ** Properties of the action executor and of the dispatcher *)

(** One turn of the loop of [executeActions]: the action is attempted, and
    the turn returns whether [executeAction] returns or throws. *)
Lemma executeActions_turn (action : AutomationAction) (context : jsval) (m : machine) :
  exists m1 t1,
    try_catch
      (bind (emit (Mark_executeAction action)) (fun _ => executeAction action context))
      (fun error =>
         console_error [LText "Error executing automation action:"; LError error])
      m = (Returned tt, m1, t1) /\
    this m1 = this m /\
    heap m1 = heap m /\
    marks t1 = [Mark_executeAction action].
Proof.
  destruct (quiet_executeAction action context m) as (Ht & Hh & Hm).
  unfold try_catch, bind, emit, console_error.
  destruct (executeAction action context m) as [[[[]|e] m1] t1];
    unfold final, trace in *; simpl in *.
  - eexists _, _. split; [reflexivity|].
    unfold marks in *; simpl. rewrite Hm. repeat split; assumption.
  - eexists _, _. split; [reflexivity|].
    unfold marks in *; simpl. rewrite filter_app, Hm. repeat split; assumption.
Qed.

Lemma executeActions_run (actions : list AutomationAction) (context : jsval) :
  forall m : machine,
  exists m1 t1,
    executeActions actions context m = (Returned tt, m1, t1) /\
    this m1 = this m /\
    heap m1 = heap m /\
    marks t1 = map Mark_executeAction actions.
Proof.
  unfold executeActions.
  induction actions as [|action actions IH]; intros m; cbn [for_of].
  - exists m, []. repeat split.
  - destruct (executeActions_turn action context m) as (m1 & t1 & E & Ht & Hh & Hm).
    destruct (IH m1) as (m2 & t2 & E2 & Ht2 & Hh2 & Hm2).
    unfold bind at 1. rewrite E, E2.
    eexists _, _. split; [reflexivity|].
    rewrite marks_app, Hm, Hm2. repeat split; congruence.
Qed.

Lemma evaluateConditions_loop_run (conditions : list AutomationCondition)
    (context : jsval) (m : machine) :
  evaluateConditions_loop conditions context m =
  (Returned (conditions_hold (heap m) context conditions), m, []).
Proof.
  induction conditions as [|c conditions IH]; [reflexivity|].
  cbn [evaluateConditions_loop conditions_hold forallb].
  unfold bind, get_heap.
  destruct (evaluateCondition _ (operator c) (value c)); simpl.
  - fold (conditions_hold (heap m) context conditions). now rewrite IH.
  - reflexivity.
Qed.

(** [evaluateConditions] computes the conjunction, reads the heap and does
    nothing else. *)
Lemma evaluateConditions_run (conditions : list AutomationCondition)
    (context : jsval) (m : machine) :
  evaluateConditions conditions context m =
  (Returned (conditions_hold (heap m) context conditions), m, []).
Proof.
  unfold evaluateConditions.
  destruct conditions as [|c conditions]; [reflexivity|].
  apply evaluateConditions_loop_run.
Qed.

Lemma dispatch_rule_run (context : jsval) (rule : AutomationRule) (m : machine) :
  exists m1 t1,
    dispatch_rule context rule m = (Returned tt, m1, t1) /\
    this m1 = this m /\
    heap m1 = heap m /\
    marks t1 = rule_marks (heap m) context rule.
Proof.
  unfold dispatch_rule, rule_marks. unfold bind at 1 2. unfold emit at 1.
  rewrite evaluateConditions_run.
  destruct (conditions_hold (heap m) context (conditions rule)).
  - unfold bind, emit.
    destruct (executeActions_run (actions rule) context m) as (m1 & t1 & E & Ht & Hh & Hm).
    rewrite E. eexists _, _. split; [reflexivity|].
    unfold marks in *; simpl. rewrite Hm. repeat split; assumption.
  - eexists _, _. split; [reflexivity|]. repeat split.
Qed.

Lemma dispatch_loop_run (context : jsval) (rs : list AutomationRule) :
  forall m : machine,
  exists m1 t1,
    for_of rs (dispatch_rule context) m = (Returned tt, m1, t1) /\
    this m1 = this m /\
    heap m1 = heap m /\
    marks t1 = flat_map (rule_marks (heap m) context) rs.
Proof.
  induction rs as [|rule rs IH]; intros m; cbn [for_of flat_map].
  - exists m, []. repeat split.
  - destruct (dispatch_rule_run context rule m) as (m1 & t1 & E & Ht & Hh & Hm).
    destruct (IH m1) as (m2 & t2 & E2 & Ht2 & Hh2 & Hm2).
    unfold bind at 1. rewrite E, E2.
    eexists _, _. split; [reflexivity|].
    rewrite marks_app, Hm, Hm2, Hh. repeat split; congruence.
Qed.

(** What one dispatch does: it returns, it leaves the engine and the heap
    as they are, and it visits the selected rules in order. *)
Lemma triggerAutomation_run (triggerType : string) (context : jsval) (m : machine) :
  exists m1 t1,
    triggerAutomation triggerType context m = (Returned tt, m1, t1) /\
    this m1 = this m /\
    heap m1 = heap m /\
    marks t1 =
      if isEnabled (this m)
      then flat_map (rule_marks (heap m) context) (applicableRules (this m) triggerType)
      else [].
Proof.
  unfold triggerAutomation. unfold bind at 1. unfold get_this.
  destruct (isEnabled (this m)); cbn [negb].
  - fold (dispatch_rule context).
    destruct (dispatch_loop_run context (applicableRules (this m) triggerType) m)
      as (m1 & t1 & E & Ht & Hh & Hm).
    rewrite E. eexists _, _. split; [reflexivity|].
    repeat split; assumption.
  - eexists _, _. split; [reflexivity|]. repeat split.
Qed.

Lemma In_marks (e : event) (t : list event) :
  In e t -> is_mark e = true -> In e (marks t).
Proof. intros Hin He. apply filter_In. split; assumption. Qed.

Lemma In_rule_marks_evaluate (h : Heap) (context : jsval) (r rule : AutomationRule) :
  In (Mark_evaluateConditions rule) (rule_marks h context r) -> rule = r.
Proof.
  unfold rule_marks. intros [H|H]; [now inversion H|].
  destruct (conditions_hold h context (conditions r)); [|contradiction].
  destruct H as [H|H]; [discriminate H|].
  apply in_map_iff in H. destruct H as (a & Ha & _). discriminate Ha.
Qed.

Lemma In_rule_marks_execute (h : Heap) (context : jsval) (r rule : AutomationRule) :
  In (Mark_executeActions rule) (rule_marks h context r) ->
  rule = r /\ conditions_hold h context (conditions r) = true.
Proof.
  unfold rule_marks. intros [H|H]; [discriminate H|].
  destruct (conditions_hold h context (conditions r)); [|contradiction].
  destruct H as [H|H]; [now inversion H|].
  apply in_map_iff in H. destruct H as (a & Ha & _). discriminate Ha.
Qed.

Lemma applicableRules_In (e : AutomationEngine) (triggerType : string) (r : AutomationRule) :
  In r (applicableRules e triggerType) <->
  In r (getRules e) /\ enabled r = true /\ trigger_type (trigger r) = triggerType.
Proof.
  unfold applicableRules, getRules. rewrite filter_In, andb_true_iff, String.eqb_eq.
  reflexivity.
Qed.

(** A mark of the dispatcher in the trace of a dispatch comes from a rule that
    the dispatcher selected, and the engine was enabled. *)
Lemma dispatch_mark_origin (triggerType : string) (context : jsval) (m : machine)
    (e : event) :
  In e (trace (triggerAutomation triggerType context m)) ->
  is_mark e = true ->
  isEnabled (this m) = true /\
  exists r, In r (applicableRules (this m) triggerType) /\
            In e (rule_marks (heap m) context r).
Proof.
  intros Hin He.
  destruct (triggerAutomation_run triggerType context m) as (m1 & t1 & E & _ & _ & Hm).
  rewrite E in Hin. unfold trace in Hin; simpl in Hin.
  apply In_marks in Hin; [|exact He]. rewrite Hm in Hin.
  destruct (isEnabled (this m)); [|contradiction].
  split; [reflexivity|]. apply in_flat_map in Hin. exact Hin.
Qed.

(** C1.  A rule whose [enabled] flag is false, registered or not, is passed
    over by every dispatch, whatever the trigger type and the context and
    also when its trigger type is the dispatched one: the dispatcher neither
    evaluates its conditions nor executes its actions. *)
Theorem disabled_rule_is_passed_over :
  forall (m : machine) (triggerType : string) (context : jsval) (rule : AutomationRule),
    enabled rule = false ->
    ~ In (Mark_evaluateConditions rule) (trace (triggerAutomation triggerType context m)) /\
    ~ In (Mark_executeActions rule) (trace (triggerAutomation triggerType context m)).
Proof.
  intros m triggerType context rule Hd. split; intros Hin.
  - destruct (dispatch_mark_origin _ _ _ _ Hin eq_refl) as (_ & r & Hr & Hm).
    apply In_rule_marks_evaluate in Hm. subst r.
    apply applicableRules_In in Hr. destruct Hr as (_ & He & _). congruence.
  - destruct (dispatch_mark_origin _ _ _ _ Hin eq_refl) as (_ & r & Hr & Hm).
    apply In_rule_marks_execute in Hm. destruct Hm as [-> _].
    apply applicableRules_In in Hr. destruct Hr as (_ & He & _). congruence.
Qed.

Lemma attempted_actions_app (t1 t2 : list event) :
  attempted_actions (t1 ++ t2)%list = (attempted_actions t1 ++ attempted_actions t2)%list.
Proof. apply flat_map_app. Qed.

Lemma attempted_actions_marks (t : list event) :
  attempted_actions (marks t) = attempted_actions t.
Proof.
  induction t as [|e t IH]; [reflexivity|].
  destruct e; simpl; try exact IH. now rewrite IH.
Qed.

Lemma attempted_actions_map (actions : list AutomationAction) :
  attempted_actions (map Mark_executeAction actions) = actions.
Proof. induction actions as [|a actions IH]; simpl; [reflexivity|now rewrite IH]. Qed.

Lemma attempted_actions_rule_marks (h : Heap) (context : jsval) (rs : list AutomationRule) :
  attempted_actions (flat_map (rule_marks h context) rs) =
  flat_map actions
    (filter (fun rule => conditions_hold h context (conditions rule)) rs).
Proof.
  induction rs as [|r rs IH]; [reflexivity|].
  cbn [flat_map filter]. rewrite attempted_actions_app, IH. unfold rule_marks.
  destruct (conditions_hold h context (conditions r)); simpl.
  - now rewrite attempted_actions_map.
  - reflexivity.
Qed.

(** C2.  Whatever the actions do, (1) [executeActions] returns and has
    called [executeAction] on every action of its list, in order; (2) an
    exception thrown by an action is caught there and logged; (3) a dispatch
    returns, it never throws; (4) a dispatch calls [executeAction] on every
    action of every selected rule whose conditions hold, in order. *)
Theorem action_failures_are_contained :
  forall (triggerType : string) (context : jsval) (m : machine),
    (forall actions m',
        result (executeActions actions context m') = Returned tt /\
        attempted_actions (trace (executeActions actions context m')) = actions) /\
    (forall action m' e,
        result (executeAction action context m') = Thrown e ->
        result (executeActions [action] context m') = Returned tt /\
        In (Console "error" [LText "Error executing automation action:"; LError e])
           (trace (executeActions [action] context m'))) /\
    result (triggerAutomation triggerType context m) = Returned tt /\
    attempted_actions (trace (triggerAutomation triggerType context m)) =
      if isEnabled (this m)
      then flat_map actions
             (filter (fun rule => conditions_hold (heap m) context (conditions rule))
                     (applicableRules (this m) triggerType))
      else [].
Proof.
  intros triggerType context m. split; [|split; [|split]].
  - intros acts m'.
    destruct (executeActions_run acts context m') as (m1 & t1 & E & _ & _ & Hm).
    rewrite E. unfold result, trace; simpl. split; [reflexivity|].
    now rewrite <- attempted_actions_marks, Hm, attempted_actions_map.
  - intros action m' e Hthrown. split.
    + destruct (executeActions_run [action] context m') as (m1 & t1 & E & _).
      now rewrite E.
    + revert Hthrown. unfold executeActions. cbn [for_of].
      unfold bind, try_catch, emit, console_error.
      destruct (executeAction action context m') as [[r m1] t1].
      unfold result, trace; simpl. intros ->. simpl.
      right. rewrite app_nil_r. apply in_or_app. right. now left.
  - destruct (triggerAutomation_run triggerType context m) as (m1 & t1 & E & _).
    now rewrite E.
  - destruct (triggerAutomation_run triggerType context m) as (m1 & t1 & E & _ & _ & Hm).
    rewrite E. unfold trace; simpl.
    rewrite <- attempted_actions_marks, Hm.
    destruct (isEnabled (this m)); [|reflexivity].
    apply attempted_actions_rule_marks.
Qed.

(** C8.  A dispatch, the evaluation of a condition list and an interpolation
    leave the heap, hence the context object and everything reachable from
    it, as they found it: every dotted path resolves after the operation to
    what it resolved to before.  The engine reads the heap through
    [getFieldValue] and has no operation that writes to it. *)
Theorem context_is_read_only :
  forall (triggerType : string) (context template : jsval)
         (conditions : list AutomationCondition) (m : machine),
    heap (final (triggerAutomation triggerType context m)) = heap m /\
    heap (final (evaluateConditions conditions context m)) = heap m /\
    heap (final (call_interpolateString template context m)) = heap m /\
    (forall field,
        getFieldValue (heap (final (triggerAutomation triggerType context m))) context field =
        getFieldValue (heap m) context field).
Proof.
  intros triggerType context template conditions0 m.
  destruct (triggerAutomation_run triggerType context m) as (m1 & t1 & E & _ & Hh & _).
  rewrite E. unfold final at 1 4; simpl.
  split; [exact Hh|]. split; [|split].
  - now rewrite evaluateConditions_run.
  - apply (quiet_call_interpolateString template context m).
  - intros field0. now rewrite Hh.
Qed.

(** C9.  While the engine is disabled, a dispatch is a no-op for every
    trigger type and context: it returns at once, the machine (registry,
    heap and world) is the one it started from, and the trace is empty, so
    that no condition was evaluated and no action executed, whatever the
    [enabled] flags of the rules. *)
Theorem disabled_engine_dispatch_is_noop :
  forall (m : machine) (triggerType : string) (context : jsval),
    isEnabled (this m) = false ->
    triggerAutomation triggerType context m = (Returned tt, m, []).
Proof.
  intros m triggerType context H.
  unfold triggerAutomation, bind, get_this. rewrite H. reflexivity.
Qed.

Lemma setEnabled_false (e : AutomationEngine) : isEnabled (setEnabled false e) = false.
Proof. reflexivity. Qed.

(** The registry operations do not touch the global switch. *)
Lemma registry_operations_keep_isEnabled (e : AutomationEngine)
    (rule : AutomationRule) (ruleId : string) :
  isEnabled (addRule rule e) = isEnabled e /\
  isEnabled (removeRule ruleId e) = isEnabled e /\
  isEnabled (enableRule ruleId e) = isEnabled e /\
  isEnabled (disableRule ruleId e) = isEnabled e.
Proof.
  unfold enableRule, disableRule.
  destruct (Map_get (rules e) ruleId); repeat split.
Qed.

(* ---------------------------------------------------------------- *)
(** ** Properties of the rule registry *)

Lemma Map_get_set_same (m : RuleMap) (k : string) (r : AutomationRule) :
  Map_get (Map_set m k r) k = Some r.
Proof.
  induction m as [|[k' r'] m IH]; simpl.
  - now rewrite String.eqb_refl.
  - destruct (String.eqb k' k) eqn:E; simpl.
    + now rewrite String.eqb_refl.
    + now rewrite E.
Qed.

Lemma Map_get_set_other (m : RuleMap) (k k' : string) (r : AutomationRule) :
  k <> k' -> Map_get (Map_set m k r) k' = Map_get m k'.
Proof.
  intros Hk. apply String.eqb_neq in Hk.
  induction m as [|[k0 r0] m IH]; simpl.
  - now rewrite Hk.
  - destruct (String.eqb k0 k) eqn:E; simpl.
    + apply String.eqb_eq in E. subst k0. now rewrite Hk.
    + now rewrite IH.
Qed.

Lemma Map_get_delete_same (m : RuleMap) (k : string) :
  Map_get (Map_delete m k) k = None.
Proof.
  unfold Map_delete. induction m as [|[k' r'] m IH]; simpl; [reflexivity|].
  destruct (String.eqb k' k) eqn:E; simpl; [exact IH|]. now rewrite E.
Qed.

Lemma Map_set_keys (m : RuleMap) (k k' : string) (r : AutomationRule) :
  In k' (map fst (Map_set m k r)) -> k' = k \/ In k' (map fst m).
Proof.
  induction m as [|[k0 r0] m IH]; simpl.
  - intros [H|[]]. now left.
  - destruct (String.eqb k0 k) eqn:E; simpl.
    + apply String.eqb_eq in E. subst k0. intros [H|H]; auto.
    + intros [H|H]; auto. destruct (IH H); auto.
Qed.

(** The keys of a map stay distinct under [set] and [delete], so that the
    [delete] of the model, which drops every entry of the key, drops the one
    entry there is. *)
Lemma Map_keys_NoDup (m : RuleMap) (k : string) (r : AutomationRule) :
  NoDup (map fst m) ->
  NoDup (map fst (Map_set m k r)) /\ NoDup (map fst (Map_delete m k)).
Proof.
  intros Hm. split.
  - induction m as [|[k0 r0] m IH]; simpl.
    + constructor; [intros []|constructor].
    + inversion Hm as [|x l Hnotin Hnd]; subst.
      destruct (String.eqb k0 k) eqn:E; simpl.
      * apply String.eqb_eq in E. subst k0. now constructor.
      * constructor; [|now apply IH].
        intros Hin. apply Map_set_keys in Hin. destruct Hin as [Hin|Hin].
        -- subst k0. now rewrite String.eqb_refl in E.
        -- now apply Hnotin.
  - unfold Map_delete. induction m as [|[k0 r0] m IH]; simpl; [constructor|].
    inversion Hm as [|x l Hnotin Hnd]; subst.
    destruct (String.eqb k0 k); simpl; [now apply IH|].
    constructor; [|now apply IH].
    intros Hin. apply Hnotin. apply in_map_iff in Hin.
    destruct Hin as (x & Hx & Hin). apply filter_In in Hin.
    apply in_map_iff. exists x. now split.
Qed.

(** C7.  After [addRule(r)], [getRule(r.id)] is [r]; when a second rule is
    added under the id of the first, [getRule] returns the second; and after
    [removeRule(r.id)], [getRule(r.id)] finds nothing. *)
Theorem registry_round_trip :
  forall (e : AutomationEngine) (r r' : AutomationRule),
    getRule (id r) (addRule r e) = Some r /\
    (id r' = id r -> getRule (id r) (addRule r' (addRule r e)) = Some r') /\
    getRule (id r) (removeRule (id r) (addRule r e)) = None.
Proof.
  intros e r r'. unfold getRule, addRule, removeRule; simpl. repeat split.
  - apply Map_get_set_same.
  - intros <-. apply Map_get_set_same.
  - apply Map_get_delete_same.
Qed.

Lemma loadDefaultRules_overdue (nowISO : string) (e : AutomationEngine) :
  getRule "overdue-task-notification" (loadDefaultRules nowISO e) =
  Some (overdue_task_notification nowISO).
Proof.
  unfold getRule, loadDefaultRules, defaultRules; simpl.
  rewrite Map_get_set_other by discriminate.
  rewrite Map_get_set_other by discriminate.
  apply Map_get_set_same.
Qed.

(* ---------------------------------------------------------------- *)
(** ** The default rule on overdue tasks *)

Lemma overdue_conditions_fail (nowISO : string) (h : Heap) (context : jsval) :
  conditions_hold h context (conditions (overdue_task_notification nowISO)) = false.
Proof.
  unfold conditions_hold; simpl.
  destruct (evaluateCondition _ "less_than" (VString nowISO)) eqn:E; [|reflexivity].
  apply evaluateCondition_less_than in E.
  destruct E as (a & b & _ & Hb & _). discriminate Hb.
Qed.

(** C10.  The default rule [overdue-task-notification], as [loadDefaultRules]
    installs it, has a condition list that is false on every context: its
    first condition is [less_than] with a string as literal.  So no dispatch,
    whatever the trigger type, the context and the state of the engine,
    executes its actions. *)
Theorem overdue_rule_never_fires :
  forall (nowISO triggerType : string) (context : jsval) (m : machine),
    getRule "overdue-task-notification" (loadDefaultRules nowISO (this m)) =
      Some (overdue_task_notification nowISO) /\
    evaluateConditions (conditions (overdue_task_notification nowISO)) context m =
      (Returned false, m, []) /\
    ~ In (Mark_executeActions (overdue_task_notification nowISO))
         (trace (triggerAutomation triggerType context m)).
Proof.
  intros nowISO triggerType context m. split; [|split].
  - apply loadDefaultRules_overdue.
  - rewrite evaluateConditions_run. now rewrite overdue_conditions_fail.
  - intros Hin.
    destruct (dispatch_mark_origin _ _ _ _ Hin eq_refl) as (_ & r & _ & Hm).
    apply In_rule_marks_execute in Hm. destruct Hm as [<- Hc].
    rewrite overdue_conditions_fail in Hc. discriminate Hc.
Qed.

(* ---------------------------------------------------------------- *)
(** ** More on field paths and conditions *)

Lemma split_not_nil (sep : ascii) (s : string) : split sep s <> [].
Proof.
  destruct s as [|c s]; simpl; [discriminate|].
  destruct (Ascii.eqb c sep); [discriminate|].
  destruct (split sep s); discriminate.
Qed.

Lemma split_append (sep : ascii) (a b : string) :
  split sep (a ++ String sep b) = (split sep a ++ split sep b)%list.
Proof.
  induction a as [|c a IH]; simpl.
  - now rewrite Ascii.eqb_refl.
  - rewrite IH. destruct (Ascii.eqb c sep); [reflexivity|].
    pose proof (split_not_nil sep a) as Hne.
    destruct (split sep a) as [|p ps]; [now elim Hne|]. reflexivity.
Qed.

Lemma descend_undefined (h : Heap) (parts : list string) :
  descend h VUndefined parts = VUndefined.
Proof. destruct parts; reflexivity. Qed.

Lemma descend_app (h : Heap) (p q : list string) :
  forall v, descend h v (p ++ q)%list = descend h (descend h v p) q.
Proof.
  induction p as [|part rest IH]; intros v; [reflexivity|].
  cbn [app descend].
  destruct (optional_member h v part); try apply IH.
  now rewrite descend_undefined.
Qed.

Lemma getFieldValue_nullish (h : Heap) (field : string) :
  getFieldValue h VUndefined field = VUndefined /\
  getFieldValue h VNull field = VUndefined.
Proof.
  unfold getFieldValue. pose proof (split_not_nil "." field) as Hne.
  destruct (split "." field) as [|part rest]; [now elim Hne|]. split; reflexivity.
Qed.

(** X1.  Descent composes: the path [a.b] resolves to what [b] resolves to
    from the value of [a]; and when [a] resolves to [null] or to [undefined],
    [a.b] resolves to [undefined]. *)
Theorem getFieldValue_compose :
  forall (h : Heap) (context : jsval) (a b : string),
    getFieldValue h context (a ++ "." ++ b) =
      getFieldValue h (getFieldValue h context a) b /\
    (getFieldValue h context a = VNull \/ getFieldValue h context a = VUndefined ->
     getFieldValue h context (a ++ "." ++ b) = VUndefined).
Proof.
  intros h context a b.
  assert (E : getFieldValue h context (a ++ "." ++ b) =
              getFieldValue h (getFieldValue h context a) b).
  { unfold getFieldValue.
    change (a ++ "." ++ b) with (a ++ String "." b).
    now rewrite split_append, descend_app. }
  split; [exact E|].
  intros [H|H]; rewrite E, H; apply getFieldValue_nullish.
Qed.

Lemma replace_all_from_verbatim (f : string -> string -> string) :
  (forall path, is_path path -> f (token path) path = token path) ->
  forall (fuel : nat) (s : string), replace_all_from fuel f s = s.
Proof.
  intros Hf. induction fuel as [|fuel IH]; intros s; [reflexivity|].
  rewrite replace_all_from_step.
  destruct s as [|c s']; [reflexivity|].
  destruct (match_here (String c s')) as [[path rest]|] eqn:Em.
  - destruct (match_here_sound _ _ _ Em) as [Hp Es].
    rewrite (Hf _ Hp), IH. now rewrite Es.
  - now rewrite IH.
Qed.

Lemma replace_all_from_verbatim_on (f : string -> string -> string) :
  forall (fuel : nat) (s : string),
    (forall before path rest,
        is_path path -> s = before ++ token path ++ rest ->
        f (token path) path = token path) ->
    replace_all_from fuel f s = s.
Proof.
  induction fuel as [|fuel IH]; intros s Hf; [reflexivity|].
  rewrite replace_all_from_step.
  destruct s as [|c s']; [reflexivity|].
  destruct (match_here (String c s')) as [[path rest]|] eqn:Em.
  - destruct (match_here_sound _ _ _ Em) as [Hp Es].
    rewrite (Hf "" path rest Hp Es). rewrite IH; [now rewrite Es|].
    intros before path' rest' Hp' E.
    apply (Hf (token path ++ before) path' rest' Hp').
    rewrite Es, E. now rewrite append_assoc.
  - rewrite IH; [reflexivity|].
    intros before path' rest' Hp' E.
    apply (Hf (String c before) path' rest' Hp'). now rewrite E.
Qed.

(** Every token of a string has its path in [token_paths]. *)
Lemma token_paths_complete (before path rest : string) :
  is_path path -> In path (token_paths (before ++ token path ++ rest)).
Proof.
  intros Hp. induction before as [|c before IH].
  - change ("" ++ token path ++ rest) with (token path ++ rest).
    rewrite token_append. cbn [token_paths]. rewrite <- token_append.
    rewrite (match_here_token _ _ Hp). now left.
  - change (String c before ++ token path ++ rest)
      with (String c (before ++ token path ++ rest)).
    cbn [token_paths].
    destruct (match_here _) as [[p r]|]; [now right|exact IH].
Qed.

(** X2.  A template none of whose tokens has a path that resolves in the
    context comes back as it is; this is the case of every template when the
    context is [undefined] or [null]. *)
Theorem interpolateString_nothing_resolves :
  forall (h : Heap) (template : string) (context : jsval),
    ((forall before path rest,
         is_path path -> template = before ++ token path ++ rest ->
         getFieldValue h context (trim path) = VUndefined) ->
     interpolateString h template context = template) /\
    interpolateString h template VUndefined = template /\
    interpolateString h template VNull = template.
Proof.
  intros h template context.
  assert (G : forall ctx, (forall path, getFieldValue h ctx (trim path) = VUndefined) ->
                          interpolateString h template ctx = template).
  { intros ctx Hu. unfold interpolateString, replace_all.
    apply replace_all_from_verbatim. intros path _. unfold replacer. now rewrite Hu. }
  split; [|split; apply G; intros path; apply getFieldValue_nullish].
  intros Hu. unfold interpolateString, replace_all.
  apply replace_all_from_verbatim_on. intros before path rest Hp E.
  unfold replacer. now rewrite (Hu before path rest Hp E).
Qed.

(** X3.  No value is neither empty nor not empty, and the values that are
    both are [false] and the falsy numbers (the zeros and NaN). *)
Theorem is_empty_and_is_not_empty :
  forall fieldValue v1 v2 : jsval,
    evaluateCondition fieldValue "is_empty" v1 ||
    evaluateCondition fieldValue "is_not_empty" v2 = true /\
    (evaluateCondition fieldValue "is_empty" v1 = true /\
     evaluateCondition fieldValue "is_not_empty" v2 = true <->
     fieldValue = VBoolean false \/
     exists n, fieldValue = VNumber n /\ truthy (VNumber n) = false).
Proof.
  intros fieldValue v1 v2. unfold evaluateCondition; simpl.
  destruct fieldValue as [| |b|n|s|l]; simpl.
  - split; [reflexivity|]. split; [intros [_ H]; discriminate H|].
    intros [H|(n & H & _)]; discriminate H.
  - split; [reflexivity|]. split; [intros [_ H]; discriminate H|].
    intros [H|(n & H & _)]; discriminate H.
  - destruct b; simpl.
    + split; [reflexivity|]. split; [intros [H _]; discriminate H|].
      intros [H|(n & H & _)]; discriminate H.
    + split; [reflexivity|]. split; [now left|now split].
  - rewrite orb_false_r, orb_true_r. split; [reflexivity|]. split.
    + intros [H _]. right. exists n. split; [reflexivity|].
      now apply negb_true_iff in H.
    + intros [H|(n' & H & Hn)]; [discriminate H|]. inversion H; subst n'.
      split; [now apply negb_true_iff|reflexivity].
  - destruct s as [|c s]; simpl.
    + split; [reflexivity|]. split; [intros [_ H]; discriminate H|].
      intros [H|(n & H & _)]; discriminate H.
    + split; [reflexivity|]. split; [intros [H _]; discriminate H|].
      intros [H|(n & H & _)]; discriminate H.
  - split; [reflexivity|]. split; [intros [H _]; discriminate H|].
    intros [H|(n & H & _)]; discriminate H.
Qed.

Lemma known_operator_false (operator : string) :
  known_operator operator = false ->
  forall fieldValue conditionValue,
    evaluateCondition fieldValue operator conditionValue = false.
Proof.
  unfold known_operator. cbn [existsb]. intros H fieldValue conditionValue.
  unfold evaluateCondition.
  repeat match type of H with
         | (?b || _) = false => apply orb_false_iff in H; destruct H as [-> H]
         end.
  reflexivity.
Qed.

(** X4.  On a field that is missing, the conditions that hold are
    [is_empty], [not_equals] against a literal other than [undefined], and
    [equals] against [undefined]; no other operator, known or not, holds. *)
Theorem conditions_on_missing_field :
  forall (operator : string) (conditionValue : jsval),
    evaluateCondition VUndefined operator conditionValue = true <->
    operator = "is_empty" \/
    (operator = "not_equals" /\ conditionValue <> VUndefined) \/
    (operator = "equals" /\ conditionValue = VUndefined).
Proof.
  intros operator conditionValue.
  destruct (known_operator operator) eqn:K.
  - unfold known_operator in K. cbn [existsb] in K.
    repeat match type of K with
           | (?b || _) = true => apply orb_true_iff in K; destruct K as [K|K]
           end; try discriminate K; apply String.eqb_eq in K; subst operator;
      unfold evaluateCondition; simpl;
      (split;
       [ intros H; try discriminate H
       | intros [H|[[H H']|[H H']]]; try discriminate H ]).
    + right; right. split; [reflexivity|]. now destruct conditionValue.
    + subst conditionValue. reflexivity.
    + right; left. split; [reflexivity|]. intros ->. discriminate H.
    + destruct conditionValue; try reflexivity. now elim H'.
    + now left.
    + reflexivity.
  - rewrite (known_operator_false _ K). split; [discriminate|].
    intros [H|[[H _]|[H _]]]; subst operator; discriminate K.
Qed.

Lemma prefix_append (t s : string) :
  String.prefix t s = true <-> exists after, s = t ++ after.
Proof.
  revert s. induction t as [|a t IH]; intros s.
  - split; [intros _; now exists s|intros _; now destruct s].
  - destruct s as [|b s]; simpl.
    + split; [discriminate|intros [after H]; discriminate H].
    + destruct (ascii_dec a b) as [->|Hab].
      * rewrite IH. split; intros [after H]; exists after;
          [now rewrite H|now inversion H].
      * split; [discriminate|]. intros [after H]. inversion H. now elim Hab.
Qed.

Lemma includes_substring_of (s t : string) :
  includes s t = true <-> substring_of t s.
Proof.
  split.
  - induction s as [|c s IH]; cbn [includes]; intros H; apply orb_true_iff in H;
      destruct H as [H|H]; try discriminate H.
    + apply prefix_append in H. destruct H as [after H]. now exists "", after.
    + apply prefix_append in H. destruct H as [after H]. now exists "", after.
    + destruct (IH H) as (before & after & E).
      exists (String c before), after. simpl. now rewrite E.
  - intros (before & after & ->). induction before as [|c before IH].
    + assert (P : String.prefix t (t ++ after) = true)
        by (apply prefix_append; now exists after).
      change ("" ++ t ++ after) with (t ++ after).
      destruct (t ++ after); cbn [includes]; rewrite P; reflexivity.
    + change (String c before ++ t ++ after) with (String c (before ++ t ++ after)).
      cbn [includes]. rewrite IH. apply orb_true_r.
Qed.

(** X5.  [contains] holds exactly when the field value and the literal are
    strings and the literal occurs in the field value; so the empty literal
    is contained in every string. *)
Theorem contains_is_substring :
  forall fieldValue conditionValue : jsval,
    (evaluateCondition fieldValue "contains" conditionValue = true <->
     exists s t, fieldValue = VString s /\ conditionValue = VString t /\
                 substring_of t s) /\
    (forall s, evaluateCondition (VString s) "contains" (VString "") = true).
Proof.
  intros fieldValue conditionValue. split; [split|].
  - unfold evaluateCondition; simpl.
    destruct fieldValue, conditionValue; simpl; intros H; try discriminate H.
    exists s, s0. repeat split. now apply includes_substring_of.
  - intros (s & t & -> & -> & H). unfold evaluateCondition; simpl.
    now apply includes_substring_of.
  - intros s. unfold evaluateCondition; simpl.
    apply includes_substring_of. now exists "", s.
Qed.

(* ---------------------------------------------------------------- *)
(** ** More on the dispatcher *)

Lemma failing_condition_blocks_rule (rule : AutomationRule) (c : AutomationCondition)
    (triggerType : string) (context : jsval) (m : machine) :
  In c (conditions rule) ->
  evaluateCondition (getFieldValue (heap m) context (field c)) (operator c) (value c)
    = false ->
  ~ In (Mark_executeActions rule) (trace (triggerAutomation triggerType context m)).
Proof.
  intros Hc Hfalse Hin.
  destruct (dispatch_mark_origin _ _ _ _ Hin eq_refl) as (_ & r & _ & Hm).
  apply In_rule_marks_execute in Hm. destruct Hm as [<- Hall].
  unfold conditions_hold in Hall. rewrite forallb_forall in Hall.
  rewrite (Hall c Hc) in Hfalse. discriminate Hfalse.
Qed.

(** X6.  A rule one of whose conditions has an operator that
    [evaluateCondition] does not know never has its actions executed,
    whatever the dispatch. *)
Theorem unknown_operator_blocks_rule :
  forall (rule : AutomationRule) (c : AutomationCondition)
         (triggerType : string) (context : jsval) (m : machine),
    In c (conditions rule) ->
    known_operator (operator c) = false ->
    ~ In (Mark_executeActions rule) (trace (triggerAutomation triggerType context m)).
Proof.
  intros rule c triggerType context m Hc Hk.
  apply (failing_condition_blocks_rule rule c); [exact Hc|].
  now apply known_operator_false.
Qed.

(** X7.  A dispatch on a trigger type that no enabled rule listens to does
    nothing: it returns, the machine is the same and the trace is empty. *)
Theorem dispatch_without_listener_is_noop :
  forall (triggerType : string) (context : jsval) (m : machine),
    applicableRules (this m) triggerType = [] ->
    triggerAutomation triggerType context m = (Returned tt, m, []).
Proof.
  intros triggerType context m H.
  unfold triggerAutomation, bind, get_this. rewrite H.
  destruct (isEnabled (this m)); reflexivity.
Qed.

Lemma bind_get_this {A} (k : AutomationEngine -> M A) (m : machine) :
  bind get_this k m = k (this m) m.
Proof. unfold bind, get_this. now destruct (k (this m) m) as [[r m2] t2]. Qed.

Lemma strict_equals_string (v : jsval) (s : string) :
  strict_equals v (VString s) = true <-> v = VString s.
Proof.
  destruct v; simpl; split; intros H; try discriminate H.
  - apply String.eqb_eq in H. now subst.
  - inversion H. apply String.eqb_refl.
Qed.

(** X8.  With the default rules alone, a [task_created] dispatch looks at
    the top-level field [priority] of the context: when it is the string
    ["high"], [new Notice] is called on the interpolated message; otherwise
    the conditions of the one selected rule are evaluated and nothing else
    happens. *)
Theorem default_rules_on_task_created :
  forall (nowISO : string) (context : jsval) (m : machine),
    this m = loadDefaultRules nowISO (new_AutomationEngine true) ->
    (getFieldValue (heap m) context "priority" = VString "high" ->
     In (NewNotice
           (interpolateString (heap m) "High priority task created: {{task.title}}" context))
        (trace (triggerAutomation "task_created" context m))) /\
    (getFieldValue (heap m) context "priority" <> VString "high" ->
     triggerAutomation "task_created" context m =
     (Returned tt, m, [Mark_evaluateConditions high_priority_notification])).
Proof.
  intros nowISO context m He.
  assert (E : triggerAutomation "task_created" context m =
              bind (dispatch_rule context high_priority_notification)
                   (fun _ => ret tt) m).
  { unfold triggerAutomation. rewrite bind_get_this, He. reflexivity. }
  assert (C : conditions_hold (heap m) context (conditions high_priority_notification) =
              strict_equals (getFieldValue (heap m) context "priority") (VString "high")).
  { unfold conditions_hold. cbn [high_priority_notification conditions forallb
                                  field operator value].
    apply andb_true_r. }
  rewrite E.
  split; intros Hp; unfold dispatch_rule, bind at 1 2 3; unfold emit at 1;
    rewrite evaluateConditions_run, C.
  - apply strict_equals_string in Hp. rewrite Hp.
    cbv beta iota zeta delta
      [bind try_catch emit ret executeActions for_of executeAction sendNotification
       call_interpolateString get_heap host_call console_log console_error
       action_type action_parameters parameter own_property actions
       high_priority_notification String.eqb Ascii.eqb Bool.eqb heap world this].
    destruct (new_Notice _ _) as [[[]|err] w']; cbn; auto 10.
  - destruct (strict_equals (getFieldValue (heap m) context "priority") (VString "high"))
      eqn:S.
    + apply strict_equals_string in S. contradiction.
    + reflexivity.
Qed.

(* ---------------------------------------------------------------- *)
(** ** More on the action executor *)

(** X9.  An action whose type [executeAction] does not handle, [send_email]
    among them, is answered by a warning on the console and nothing else:
    the call returns and the machine is the same. *)
Theorem unhandled_action_type_warns :
  forall (action : AutomationAction) (context : jsval) (m : machine),
    handled_action_type (action_type action) = false ->
    executeAction action context m =
    (Returned tt, m,
     [Console "warn" [LText ("Unknown automation action type: " ++ action_type action)]]).
Proof.
  intros action context m H. unfold handled_action_type in H. cbn [existsb] in H.
  unfold executeAction. cbv zeta.
  repeat match type of H with
         | (?b || _) = false => apply orb_false_iff in H; destruct H as [-> H]
         end.
  reflexivity.
Qed.

Lemma only_logs_ret {A} (a : A) : only_logs (ret a).
Proof. intros m. reflexivity. Qed.

Lemma only_logs_throw {A} (e : exn) : only_logs (throw (A := A) e).
Proof. intros m. reflexivity. Qed.

Lemma only_logs_emit (e : event) : only_logs (emit e).
Proof. intros m. reflexivity. Qed.

Lemma only_logs_get_heap : only_logs get_heap.
Proof. intros m. reflexivity. Qed.

Lemma only_logs_bind {A B} (c : M A) (k : A -> M B) :
  only_logs c -> (forall a, only_logs (k a)) -> only_logs (bind c k).
Proof.
  intros Hc Hk m. unfold bind. specialize (Hc m).
  destruct (c m) as [[[a|e] m1] t1]; unfold final in *; simpl in *; subst m1.
  - specialize (Hk a m). destruct (k a m) as [[r m2] t2]. exact Hk.
  - reflexivity.
Qed.

Ltac only_logs_step :=
  match goal with
  | |- only_logs (bind _ _) => apply only_logs_bind; [|intros ?]
  | |- only_logs (ret _) => apply only_logs_ret
  | |- only_logs (throw _) => apply only_logs_throw
  | |- only_logs get_heap => apply only_logs_get_heap
  | |- only_logs (emit _) => apply only_logs_emit
  | |- only_logs (console_log _) => apply only_logs_emit
  | |- only_logs (console_warn _) => apply only_logs_emit
  | |- only_logs (if ?b then _ else _) => destruct b
  | |- only_logs (match ?v with _ => _ end) => destruct v
  end.

Lemma only_logs_call_interpolateString (template context : jsval) :
  only_logs (call_interpolateString template context).
Proof. unfold call_interpolateString. repeat only_logs_step. Qed.

Lemma only_logs_member (v : jsval) (key : string) : only_logs (member v key).
Proof. unfold member. repeat only_logs_step. Qed.

(** X10.  Only [send_notification] and [create_note] reach the host: an
    action of any other type, [create_task], [update_task] and
    [update_status] included, logs or throws and leaves the machine, with
    the vault and the notices in it, as it found it. *)
Theorem only_notifications_and_notes_reach_the_host :
  forall (action : AutomationAction) (context : jsval) (m : machine),
    action_type action <> "send_notification" ->
    action_type action <> "create_note" ->
    final (executeAction action context m) = m.
Proof.
  intros action context m Hn Hc. revert m. change (only_logs (executeAction action context)).
  apply String.eqb_neq in Hn, Hc.
  unfold executeAction. cbv zeta. rewrite Hn, Hc.
  repeat match goal with
         | |- only_logs (if ?b then _ else _) => destruct b
         end.
  - unfold createTask.
    apply only_logs_bind; [apply only_logs_call_interpolateString|intros title].
    repeat only_logs_step.
  - unfold updateTask. apply only_logs_bind.
    + destruct (parameter (action_parameters action) "taskId");
        try apply only_logs_ret;
        (apply only_logs_bind; [apply only_logs_member|intros task; repeat only_logs_step]).
    + intros taskId. repeat only_logs_step.
  - unfold updateStatus. cbv zeta. repeat only_logs_step.
  - apply only_logs_emit.
Qed.

(** X11.  A [send_notification] action whose [message] parameter is not a
    string throws before any notice is made; [executeActions] logs the
    error and returns, and the machine is the same. *)
Theorem notification_without_message :
  forall (action : AutomationAction) (context : jsval) (m : machine),
    action_type action = "send_notification" ->
    (forall s, parameter (action_parameters action) "message" <> VString s) ->
    executeAction action context m =
      (Thrown (TypeError "template.replace is not a function"), m, []) /\
    executeActions [action] context m =
      (Returned tt, m,
       [Mark_executeAction action;
        Console "error" [LText "Error executing automation action:";
                         LError (TypeError "template.replace is not a function")]]).
Proof.
  intros action context m Ht Hm.
  assert (E : executeAction action context m =
              (Thrown (TypeError "template.replace is not a function"), m, [])).
  { unfold executeAction. cbv zeta. rewrite Ht. cbn [String.eqb Ascii.eqb Bool.eqb].
    unfold sendNotification, bind, call_interpolateString.
    destruct (parameter (action_parameters action) "message") eqn:P;
      try reflexivity.
    now elim (Hm s). }
  split; [exact E|].
  unfold executeActions. cbn [for_of]. unfold bind, try_catch, emit.
  rewrite E. reflexivity.
Qed.

(** X12.  A [create_note] action whose [content] and [path] parameters are
    strings calls [vault.create] once, on the interpolated path and content,
    and returns whether the vault accepts or fails; a failure is logged. *)
Theorem create_note_contains_vault_failure :
  forall (action : AutomationAction) (context : jsval) (m : machine)
         (content path : string),
    action_type action = "create_note" ->
    parameter (action_parameters action) "content" = VString content ->
    parameter (action_parameters action) "path" = VString path ->
    let path' := interpolateString (heap m) path context in
    let content' := interpolateString (heap m) content context in
    executeAction action context m =
    match vault_create path' content' (world m) with
    | (Returned _, w) =>
        (Returned tt, {| this := this m; heap := heap m; world := w |},
         [VaultCreate path' content'])
    | (Thrown e, w) =>
        (Returned tt, {| this := this m; heap := heap m; world := w |},
         [VaultCreate path' content';
          Console "error" [LText "Error creating note via automation:"; LError e]])
    end.
Proof.
  intros action context m content path Ht Hc Hp path' content'.
  unfold executeAction. cbv zeta. rewrite Ht. cbn [String.eqb Ascii.eqb Bool.eqb].
  unfold createNote. rewrite Hc, Hp.
  subst path' content'.
  cbv beta iota zeta delta
    [bind try_catch emit ret call_interpolateString get_heap host_call console_error].
  destruct (vault_create _ _ (world m)) as [[[]|e] w]; reflexivity.
Qed.

(** X13.  A [create_note] action whose [content] or [path] parameter is not
    a string throws before the vault is called: the machine is the same and
    the trace is empty. *)
Theorem create_note_without_strings :
  forall (action : AutomationAction) (context : jsval) (m : machine),
    action_type action = "create_note" ->
    (forall s, parameter (action_parameters action) "content" <> VString s) \/
    (forall s, parameter (action_parameters action) "path" <> VString s) ->
    executeAction action context m =
    (Thrown (TypeError "template.replace is not a function"), m, []).
Proof.
  intros action context m Ht H.
  unfold executeAction. cbv zeta. rewrite Ht. cbn [String.eqb Ascii.eqb Bool.eqb].
  unfold createNote.
  destruct (parameter (action_parameters action) "content") as [| |b|n|c|l] eqn:C;
    try reflexivity.
  destruct H as [H|H]; [now elim (H c)|].
  destruct (parameter (action_parameters action) "path") as [| |b|n|p|l] eqn:P;
    try reflexivity.
  now elim (H p).
Qed.

(** X14.  In [update_task] the parameter [taskId] comes first: when it is
    neither [undefined] nor [null] the context is not read, and the id is
    logged if it is truthy.  Without it the id is [context.task?.id], and a
    context that is [undefined] or [null] makes the action throw. *)
Theorem update_task_id_precedence :
  forall (action : AutomationAction) (context : jsval) (m : machine),
    action_type action = "update_task" ->
    let taskId := parameter (action_parameters action) "taskId" in
    (taskId <> VUndefined -> taskId <> VNull ->
     executeAction action context m =
     (Returned tt, m,
      if truthy taskId
      then [Console "log"
              [LText ("Automation: Updating task " ++ js_String (heap m) taskId)]]
      else [])) /\
    (taskId = VUndefined \/ taskId = VNull ->
     context = VUndefined \/ context = VNull ->
     executeAction action context m =
     (Thrown (TypeError "Cannot read properties of undefined or null"), m, [])).
Proof.
  intros action context m Ht taskId. subst taskId.
  unfold executeAction. cbv zeta. rewrite Ht. cbn [String.eqb Ascii.eqb Bool.eqb].
  unfold updateTask. split.
  - intros Hu Hn.
    destruct (parameter (action_parameters action) "taskId") as [| |b|n|s|l];
      try (now elim Hu); try (now elim Hn);
      cbv beta iota zeta delta [bind ret get_heap emit console_log];
      match goal with |- context [truthy ?v] => destruct (truthy v) end; reflexivity.
  - intros [-> | ->] [-> | ->]; reflexivity.
Qed.

(* ---------------------------------------------------------------- *)
(** ** More on the rule registry *)

Lemma Map_set_present (m : RuleMap) (k : string) (r0 r : AutomationRule) :
  Map_get m k = Some r0 -> map fst (Map_set m k r) = map fst m.
Proof.
  induction m as [|[k' r'] m IH]; simpl; [discriminate|].
  destruct (String.eqb k' k) eqn:E; simpl.
  - apply String.eqb_eq in E. now subst k'.
  - intros H. now rewrite IH.
Qed.

Lemma Map_set_absent (m : RuleMap) (k : string) (r : AutomationRule) :
  Map_get m k = None -> Map_set m k r = (m ++ [(k, r)])%list.
Proof.
  induction m as [|[k' r'] m IH]; simpl; [reflexivity|].
  destruct (String.eqb k' k); [discriminate|]. intros H. now rewrite IH.
Qed.

Lemma Map_set_same_value (m : RuleMap) (k : string) (r : AutomationRule) :
  Map_get m k = Some r -> Map_set m k r = m.
Proof.
  induction m as [|[k' r'] m IH]; simpl; [discriminate|].
  destruct (String.eqb k' k) eqn:E.
  - apply String.eqb_eq in E. subst k'. intros H. now inversion H.
  - intros H. now rewrite IH.
Qed.

Lemma Map_set_twice (m : RuleMap) (k : string) (r1 r2 : AutomationRule) :
  Map_set (Map_set m k r1) k r2 = Map_set m k r2.
Proof.
  induction m as [|[k' r'] m IH]; simpl.
  - now rewrite String.eqb_refl.
  - destruct (String.eqb k' k) eqn:E; simpl.
    + now rewrite String.eqb_refl.
    + now rewrite E, IH.
Qed.

Lemma Map_get_delete_other (m : RuleMap) (k k' : string) :
  k <> k' -> Map_get (Map_delete m k) k' = Map_get m k'.
Proof.
  intros Hk. unfold Map_delete. induction m as [|[k0 r0] m IH]; simpl; [reflexivity|].
  destruct (String.eqb k0 k) eqn:E; simpl.
  - apply String.eqb_eq in E. subst k0.
    apply String.eqb_neq in Hk. now rewrite Hk.
  - now rewrite IH.
Qed.

Lemma Map_delete_absent (m : RuleMap) (k : string) :
  Map_get m k = None -> Map_delete m k = m.
Proof.
  unfold Map_delete. induction m as [|[k' r'] m IH]; simpl; [reflexivity|].
  destruct (String.eqb k' k); [discriminate|]. simpl. intros H. now rewrite IH.
Qed.

Lemma engine_eta (e : AutomationEngine) :
  {| rules := rules e; isEnabled := isEnabled e |} = e.
Proof. now destruct e. Qed.

(** The two operations on the flag of a rule. *)
Lemma set_rule_flag_unfold (b : bool) (ruleId : string) (e : AutomationEngine) :
  (if b then enableRule else disableRule) ruleId e =
  match Map_get (rules e) ruleId with
  | Some rule =>
      {| rules := Map_set (rules e) ruleId (set_enabled rule b);
         isEnabled := isEnabled e |}
  | None => e
  end.
Proof. now destruct b. Qed.

(** X15.  [enableRule] and [disableRule] set the flag of the rule stored
    under the id and nothing else of it; they leave every other rule, the
    order of the registry and the global switch as they are; on an id that
    is not registered they do nothing. *)
Theorem rule_flag_operations :
  forall (e : AutomationEngine) (ruleId : string) (b : bool),
    let e' := (if b then enableRule else disableRule) ruleId e in
    (forall r, getRule ruleId e = Some r -> getRule ruleId e' = Some (set_enabled r b)) /\
    (getRule ruleId e = None -> e' = e) /\
    (forall k, k <> ruleId -> getRule k e' = getRule k e) /\
    map fst (rules e') = map fst (rules e) /\
    isEnabled e' = isEnabled e.
Proof.
  intros e ruleId b e'. subst e'. rewrite set_rule_flag_unfold. unfold getRule.
  destruct (Map_get (rules e) ruleId) as [r0|] eqn:G; simpl.
  - split; [|split; [|split; [|split]]].
    + intros r H. inversion H; subst. apply Map_get_set_same.
    + discriminate.
    + intros k Hk. apply Map_get_set_other. congruence.
    + now apply (Map_set_present _ _ r0).
    + reflexivity.
  - split; [|split; [|split; [|split]]]; try reflexivity. discriminate.
Qed.

Lemma set_enabled_twice (r : AutomationRule) (b : bool) :
  enabled r = b -> set_enabled (set_enabled r (negb b)) b = r.
Proof. destruct r; simpl. now intros ->. Qed.

(** X16.  Disabling then enabling a rule that was enabled gives the
    registry back, and so does enabling then disabling a rule that was
    disabled. *)
Theorem rule_flag_round_trip :
  forall (e : AutomationEngine) (ruleId : string) (r : AutomationRule),
    getRule ruleId e = Some r ->
    (enabled r = true -> enableRule ruleId (disableRule ruleId e) = e) /\
    (enabled r = false -> disableRule ruleId (enableRule ruleId e) = e).
Proof.
  intros e ruleId r G. unfold getRule in G.
  unfold enableRule, disableRule. rewrite G. simpl.
  rewrite !Map_get_set_same, !Map_set_twice.
  split; intros Hr.
  - pose proof (set_enabled_twice r true Hr) as T. cbn [negb] in T.
    rewrite T, (Map_set_same_value _ _ _ G). apply engine_eta.
  - pose proof (set_enabled_twice r false Hr) as T. cbn [negb] in T.
    rewrite T, (Map_set_same_value _ _ _ G). apply engine_eta.
Qed.

(** X17.  [addRule] on an id that is not registered puts the rule last; on
    a registered id it replaces the rule where it stands, so that the order
    of the ids does not change; in both cases the other ids keep their
    rules. *)
Theorem addRule_position :
  forall (e : AutomationEngine) (r : AutomationRule),
    (getRule (id r) e = None -> getRules (addRule r e) = (getRules e ++ [r])%list) /\
    (getRule (id r) e <> None ->
     map fst (rules (addRule r e)) = map fst (rules e)) /\
    (forall k, k <> id r -> getRule k (addRule r e) = getRule k e).
Proof.
  intros e r. unfold getRule, getRules, addRule, Map_values; simpl.
  split; [|split].
  - intros H. rewrite (Map_set_absent _ _ _ H), map_app. reflexivity.
  - intros H. destruct (Map_get (rules e) (id r)) as [r0|] eqn:G; [|now elim H].
    now apply (Map_set_present _ _ r0).
  - intros k Hk. apply Map_get_set_other. congruence.
Qed.

Lemma Map_values_delete (e : AutomationEngine) (ruleId : string) :
  registry_ok e ->
  Map_values (Map_delete (rules e) ruleId) =
  filter (fun r => negb (String.eqb (id r) ruleId)) (Map_values (rules e)).
Proof.
  intros [Hid _]. unfold Map_delete, Map_values.
  induction (rules e) as [|[k r] m IH]; simpl; [reflexivity|].
  inversion Hid as [|x l Hk Hrest]; subst. simpl in Hk. subst k.
  destruct (String.eqb (id r) ruleId); simpl; now rewrite IH.
Qed.

(** X18.  [removeRule] leaves the rules of the other ids, and does nothing
    on an id that is not registered; in a registry that keeps every rule
    under its own id, the rules listed afterwards are those of another id,
    in the order they had. *)
Theorem removeRule_frame :
  forall (e : AutomationEngine) (ruleId : string),
    (forall k, k <> ruleId -> getRule k (removeRule ruleId e) = getRule k e) /\
    (getRule ruleId e = None -> removeRule ruleId e = e) /\
    (registry_ok e ->
     getRules (removeRule ruleId e) =
     filter (fun r => negb (String.eqb (id r) ruleId)) (getRules e)).
Proof.
  intros e ruleId.
  unfold getRule, getRules, removeRule, Map_values; simpl. split; [|split].
  - intros k Hk. apply Map_get_delete_other. congruence.
  - intros H. rewrite (Map_delete_absent _ _ H). apply engine_eta.
  - apply Map_values_delete.
Qed.

Lemma registry_ok_key (m : RuleMap) (k : string) (r : AutomationRule) :
  Forall (fun entry => fst entry = id (snd entry)) m ->
  Map_get m k = Some r -> k = id r.
Proof.
  induction m as [|[k' r'] m IH]; simpl; [discriminate|].
  intros Hm. inversion Hm as [|x l Hk Hrest]; subst. simpl in Hk.
  destruct (String.eqb k' k) eqn:E.
  - apply String.eqb_eq in E. intros H. inversion H. congruence.
  - now apply IH.
Qed.

Lemma Map_set_own_id (m : RuleMap) (r : AutomationRule) :
  Forall (fun entry => fst entry = id (snd entry)) m ->
  Forall (fun entry => fst entry = id (snd entry)) (Map_set m (id r) r).
Proof.
  induction m as [|[k' r'] m IH]; simpl; intros Hm.
  - constructor; [reflexivity|constructor].
  - inversion Hm as [|x l Hk Hrest]; subst.
    destruct (String.eqb k' (id r)); constructor; auto.
Qed.

Lemma registry_ok_addRule (rule : AutomationRule) (e : AutomationEngine) :
  registry_ok e -> registry_ok (addRule rule e).
Proof.
  intros [Hid Hnd]. split; simpl.
  - now apply Map_set_own_id.
  - now apply Map_keys_NoDup.
Qed.

Lemma registry_ok_set_flag (b : bool) (ruleId : string) (e : AutomationEngine) :
  registry_ok e -> registry_ok ((if b then enableRule else disableRule) ruleId e).
Proof.
  intros Hok. rewrite set_rule_flag_unfold.
  destruct (Map_get (rules e) ruleId) as [r|] eqn:G; [|exact Hok].
  destruct Hok as [Hid Hnd].
  assert (K : ruleId = id (set_enabled r b)) by (simpl; now apply (registry_ok_key (rules e))).
  split; simpl.
  - rewrite K at 1. now apply Map_set_own_id.
  - now apply Map_keys_NoDup.
Qed.

(** X19.  The registry keeps every rule under its own id and no id twice:
    this holds of a new engine and is kept by [addRule], [removeRule],
    [enableRule], [disableRule], [setEnabled] and [loadDefaultRules]. *)
Theorem registry_invariant :
  forall (e : AutomationEngine) (rule : AutomationRule) (ruleId nowISO : string)
         (b : bool),
    registry_ok (new_AutomationEngine b) /\
    (registry_ok e ->
     registry_ok (addRule rule e) /\
     registry_ok (removeRule ruleId e) /\
     registry_ok (enableRule ruleId e) /\
     registry_ok (disableRule ruleId e) /\
     registry_ok (setEnabled b e) /\
     registry_ok (loadDefaultRules nowISO e)).
Proof.
  intros e rule ruleId nowISO b. split.
  - split; simpl; constructor.
  - intros Hok. split; [|split; [|split; [|split; [|split]]]].
    + now apply registry_ok_addRule.
    + destruct Hok as [Hid Hnd]. split; simpl.
      * unfold Map_delete. rewrite Forall_forall in *.
        intros x Hx. apply filter_In in Hx. now apply Hid.
      * now apply Map_keys_NoDup.
    + now apply (registry_ok_set_flag true).
    + now apply (registry_ok_set_flag false).
    + exact Hok.
    + change (loadDefaultRules nowISO e)
        with (addRule high_priority_notification
                (addRule task_completion_milestone
                   (addRule (overdue_task_notification nowISO) e))).
      now repeat apply registry_ok_addRule.
Qed.

Lemma Map_get_In (m : RuleMap) (k : string) (r : AutomationRule) :
  NoDup (map fst m) -> In (k, r) m -> Map_get m k = Some r.
Proof.
  induction m as [|[k' r'] m IH]; simpl; [intros _ []|].
  intros Hnd [H|H].
  - inversion H; subst. now rewrite String.eqb_refl.
  - inversion Hnd as [|x l Hnotin Hnd']; subst.
    destruct (String.eqb k' k) eqn:E.
    + apply String.eqb_eq in E. subst k'. elim Hnotin.
      apply in_map_iff. now exists (k, r).
    + now apply IH.
Qed.

Lemma Map_get_Some_In (m : RuleMap) (k : string) (r : AutomationRule) :
  Map_get m k = Some r -> In r (Map_values m).
Proof.
  unfold Map_values. induction m as [|[k' r'] m IH]; simpl; [discriminate|].
  destruct (String.eqb k' k); intros H; [inversion H; now left|right; now apply IH].
Qed.

Lemma registry_ok_listed (e : AutomationEngine) (r : AutomationRule) :
  registry_ok e -> In r (getRules e) -> getRule (id r) e = Some r.
Proof.
  intros [Hid Hnd] Hr. unfold getRule, getRules, Map_values in *.
  apply in_map_iff in Hr. destruct Hr as ([k r'] & Hs & Hin). simpl in Hs. subst r'.
  rewrite Forall_forall in Hid. specialize (Hid _ Hin). simpl in Hid. subst k.
  now apply Map_get_In.
Qed.

(** X20.  In such a registry the list and the lookup agree: every rule
    that [getRules] lists is the one [getRule] finds under its id, every
    rule that [getRule] finds under an id has that id and is listed, and no
    two listed rules have the same id. *)
Theorem getRules_agrees_with_getRule :
  forall e : AutomationEngine,
    registry_ok e ->
    (forall r, In r (getRules e) -> getRule (id r) e = Some r) /\
    (forall k r, getRule k e = Some r -> id r = k /\ In r (getRules e)) /\
    NoDup (map id (getRules e)).
Proof.
  intros e Hok. split; [intros r Hr; now apply registry_ok_listed|].
  destruct Hok as [Hid Hnd]. unfold getRule, getRules. split.
  - intros k r G. split.
    + symmetry. now apply (registry_ok_key (rules e)).
    + now apply (Map_get_Some_In _ k).
  - unfold Map_values. rewrite map_map.
    replace (map (fun x => id (snd x)) (rules e)) with (map fst (rules e)); [exact Hnd|].
    apply map_ext_in. intros x Hx. rewrite Forall_forall in Hid. now apply Hid.
Qed.

(** X21.  [loadDefaultRules] puts the three default rules under their ids,
    over whatever was there, and leaves the rules of the other ids and the
    global switch; on an empty registry the rules are the three defaults in
    the order of the source. *)
Theorem loadDefaultRules_installs :
  forall (nowISO : string) (e : AutomationEngine) (b : bool),
    let e' := loadDefaultRules nowISO e in
    (forall r, In r (defaultRules nowISO) -> getRule (id r) e' = Some r) /\
    (forall k, ~ In k (map id (defaultRules nowISO)) -> getRule k e' = getRule k e) /\
    isEnabled e' = isEnabled e /\
    getRules (loadDefaultRules nowISO (new_AutomationEngine b)) = defaultRules nowISO.
Proof.
  intros nowISO e b e'. subst e'.
  unfold getRule, loadDefaultRules, defaultRules; simpl.
  split; [|split; [|split]]; try reflexivity.
  - intros r [<-|[<-|[<-|[]]]]; simpl.
    + rewrite !Map_get_set_other by discriminate. apply Map_get_set_same.
    + rewrite Map_get_set_other by discriminate. apply Map_get_set_same.
    + apply Map_get_set_same.
  - intros k Hk.
    rewrite !Map_get_set_other; [reflexivity|intros E; apply Hk; rewrite <- E; auto..].
Qed.

(* ---------------------------------------------------------------- *)
(** ** Start-up and the daily run *)


(** X23.  An engine constructed with automation off has no rule after
    [initialize]; when it is switched on afterwards the registry is still
    empty, and every dispatch does nothing. *)
Theorem late_enabling_finds_no_rules :
  forall (getAbstractFileByPath : string -> World -> outcome bool * World)
         (projectsFolder nowISO triggerType : string) (LocalTZA : Z)
         (now : Scheduler.Date) (context : jsval) (m : machine),
    this m = new_AutomationEngine false ->
    let m' := final (initialize getAbstractFileByPath projectsFolder nowISO LocalTZA now m) in
    let m'' := with_this (setEnabled true (this m')) m' in
    getRules (this m'') = [] /\
    isAutomationEnabled (this m'') = true /\
    triggerAutomation triggerType context m'' = (Returned tt, m'', []).
Proof.
  intros gafp projectsFolder nowISO triggerType LocalTZA now context m Hm m' m''.
  assert (E : m' = m).
  { subst m'. unfold initialize. rewrite bind_get_this, Hm. reflexivity. }
  subst m''. rewrite E, Hm. split; [reflexivity|]. split; [reflexivity|].
  unfold triggerAutomation. rewrite bind_get_this. reflexivity.
Qed.

Lemma fresh_bound (h : Heap) (l : loc) (o : object) :
  heap_lookup h l = Some o -> (l < fresh h)%nat.
Proof.
  unfold fresh. induction h as [|[l' o'] h IH]; simpl; [discriminate|].
  destruct (Nat.eqb l' l) eqn:E.
  - apply Nat.eqb_eq in E. subst l'. intros _. lia.
  - intros H. specialize (IH H). lia.
Qed.

Lemma runDailyAutomation_unfold (nowISO : string) (m : machine) :
  runDailyAutomation nowISO m =
  triggerAutomation "daily_schedule" (VObject (fresh (heap m)))
    {| this := this m;
       heap := (fresh (heap m),
                [("date", VString nowISO); ("type", VString "daily_check")]) :: heap m;
       world := world m |}.
Proof.
  unfold runDailyAutomation, bind, new_object. cbv zeta.
  now destruct (triggerAutomation _ _ _) as [[r m2] t2].
Qed.

(** X24.  [runDailyAutomation] returns.  It puts its context, an object
    with the fields [date] and [type], at a new address and leaves the
    engine and every object of the heap as they were.  On an engine that
    has the default rules alone, it evaluates the conditions of the rule on
    overdue tasks and shows nothing. *)
Theorem runDailyAutomation_behaviour :
  forall (nowISO : string) (m : machine),
    let daily := [("date", VString nowISO); ("type", VString "daily_check")] in
    (exists m' t,
        runDailyAutomation nowISO m = (Returned tt, m', t) /\
        this m' = this m /\
        heap m' = (fresh (heap m), daily) :: heap m /\
        (forall l o, heap_lookup (heap m) l = Some o -> heap_lookup (heap m') l = Some o)) /\
    (forall loadedISO,
        this m = loadDefaultRules loadedISO (new_AutomationEngine true) ->
        runDailyAutomation nowISO m =
        (Returned tt,
         {| this := this m; heap := (fresh (heap m), daily) :: heap m; world := world m |},
         [Mark_evaluateConditions (overdue_task_notification loadedISO)])).
Proof.
  intros nowISO m daily. rewrite runDailyAutomation_unfold. fold daily.
  set (m1 := {| this := this m; heap := (fresh (heap m), daily) :: heap m;
                world := world m |}).
  split.
  - destruct (triggerAutomation_run "daily_schedule" (VObject (fresh (heap m))) m1)
      as (m' & t & E & Ht & Hh & _).
    rewrite E. exists m', t.
    split; [reflexivity|]. split; [exact Ht|]. split; [exact Hh|].
    intros l o Hl. rewrite Hh. subst m1. cbn [heap heap_lookup].
    pose proof (fresh_bound _ _ _ Hl) as Hb.
    destruct (Nat.eqb_spec (fresh (heap m)) l) as [Heq|_]; [lia|exact Hl].
  - intros loadedISO He.
    assert (E : triggerAutomation "daily_schedule" (VObject (fresh (heap m))) m1 =
                bind (dispatch_rule (VObject (fresh (heap m)))
                        (overdue_task_notification loadedISO))
                     (fun _ => ret tt) m1).
    { unfold triggerAutomation. rewrite bind_get_this.
      replace (this m1) with (loadDefaultRules loadedISO (new_AutomationEngine true))
        by (subst m1; now rewrite <- He).
      reflexivity. }
    rewrite E. unfold dispatch_rule, bind at 1 2 3. unfold emit at 1.
    rewrite evaluateConditions_run, overdue_conditions_fail. reflexivity.
Qed.

(* ---------------------------------------------------------------- *)
(** ** What a dispatch depends on *)

Lemma ignores_this_ret {A} (a : A) : ignores_this (ret a).
Proof. intros m e. reflexivity. Qed.

Lemma ignores_this_throw {A} (x : exn) : ignores_this (throw (A := A) x).
Proof. intros m e. reflexivity. Qed.

Lemma ignores_this_emit (ev : event) : ignores_this (emit ev).
Proof. intros m e. reflexivity. Qed.

Lemma ignores_this_get_heap : ignores_this get_heap.
Proof. intros m e. reflexivity. Qed.

Lemma ignores_this_host_call (f : World -> outcome unit * World) :
  ignores_this (host_call f).
Proof.
  intros m e. unfold host_call, with_this. cbn [world heap this].
  now destruct (f (world m)) as [r w].
Qed.

Lemma ignores_this_bind {A B} (c : M A) (k : A -> M B) :
  ignores_this c -> (forall a, ignores_this (k a)) -> ignores_this (bind c k).
Proof.
  intros Hc Hk m e. unfold bind. rewrite (Hc m e).
  destruct (c m) as [[[a|x] m1] t1]; [|reflexivity].
  rewrite (Hk a m1 e). now destruct (k a m1) as [[r m2] t2].
Qed.

Lemma ignores_this_try_catch (c : M unit) (handler : exn -> M unit) :
  ignores_this c -> (forall x, ignores_this (handler x)) ->
  ignores_this (try_catch c handler).
Proof.
  intros Hc Hk m e. unfold try_catch. rewrite (Hc m e).
  destruct (c m) as [[[a|x] m1] t1]; [reflexivity|].
  rewrite (Hk x m1 e). now destruct (handler x m1) as [[r m2] t2].
Qed.

Lemma ignores_this_for_of {A} (xs : list A) (body : A -> M unit) :
  (forall x, ignores_this (body x)) -> ignores_this (for_of xs body).
Proof.
  intros Hb. induction xs as [|x xs IH]; cbn [for_of].
  - apply ignores_this_ret.
  - apply ignores_this_bind; [apply Hb|intros _; exact IH].
Qed.

Ltac ignores_this_step :=
  match goal with
  | |- ignores_this (bind _ _) => apply ignores_this_bind; [|intros ?]
  | |- ignores_this (try_catch _ _) => apply ignores_this_try_catch; [|intros ?]
  | |- ignores_this (ret _) => apply ignores_this_ret
  | |- ignores_this (throw _) => apply ignores_this_throw
  | |- ignores_this get_heap => apply ignores_this_get_heap
  | |- ignores_this (host_call _) => apply ignores_this_host_call
  | |- ignores_this (emit _) => apply ignores_this_emit
  | |- ignores_this (console_log _) => apply ignores_this_emit
  | |- ignores_this (console_warn _) => apply ignores_this_emit
  | |- ignores_this (console_error _) => apply ignores_this_emit
  | |- ignores_this (if ?b then _ else _) => destruct b
  | |- ignores_this (match ?v with _ => _ end) => destruct v
  end.

Lemma ignores_this_call_interpolateString (template context : jsval) :
  ignores_this (call_interpolateString template context).
Proof. unfold call_interpolateString. repeat ignores_this_step. Qed.

Lemma ignores_this_executeAction (action : AutomationAction) (context : jsval) :
  ignores_this (executeAction action context).
Proof.
  unfold executeAction. cbv zeta.
  repeat match goal with
         | |- ignores_this (if ?b then _ else _) => destruct b
         end.
  - unfold sendNotification.
    apply ignores_this_bind; [apply ignores_this_call_interpolateString|intros message].
    repeat ignores_this_step.
  - unfold createTask.
    apply ignores_this_bind; [apply ignores_this_call_interpolateString|intros title].
    repeat ignores_this_step.
  - unfold updateTask. apply ignores_this_bind.
    + destruct (parameter (action_parameters action) "taskId");
        try apply ignores_this_ret;
        (apply ignores_this_bind;
         [unfold member; repeat ignores_this_step|intros task; repeat ignores_this_step]).
    + intros taskId. repeat ignores_this_step.
  - unfold createNote.
    apply ignores_this_bind; [apply ignores_this_call_interpolateString|intros content].
    apply ignores_this_bind; [apply ignores_this_call_interpolateString|intros path].
    repeat ignores_this_step.
  - unfold updateStatus. cbv zeta. repeat ignores_this_step.
  - apply ignores_this_emit.
Qed.

Lemma ignores_this_dispatch_rule (context : jsval) (rule : AutomationRule) :
  ignores_this (dispatch_rule context rule).
Proof.
  unfold dispatch_rule.
  apply ignores_this_bind; [apply ignores_this_emit|intros _].
  apply ignores_this_bind.
  - intros m e. now rewrite !evaluateConditions_run.
  - intros [|]; [|apply ignores_this_ret].
    apply ignores_this_bind; [apply ignores_this_emit|intros _].
    unfold executeActions. apply ignores_this_for_of. intros action.
    apply ignores_this_try_catch; [|intros x; apply ignores_this_emit].
    apply ignores_this_bind; [apply ignores_this_emit|intros _].
    apply ignores_this_executeAction.
Qed.

Lemma filter_filter_implied {A} (p q : A -> bool) (l : list A) :
  (forall x, In x l -> p x = true -> q x = true) ->
  filter p l = filter p (filter q l).
Proof.
  induction l as [|x l IH]; intros H; [reflexivity|]. cbn [filter].
  destruct (p x) eqn:Px.
  - rewrite (H x (or_introl eq_refl) Px). cbn [filter]. rewrite Px.
    f_equal. apply IH. intros y Hy. apply H. now right.
  - destruct (q x); cbn [filter]; try rewrite Px; apply IH;
      intros y Hy; apply H; now right.
Qed.

Lemma with_this_twice (e1 e2 : AutomationEngine) (m : machine) :
  with_this e2 (with_this e1 m) = with_this e2 m.
Proof. reflexivity. Qed.

Lemma dispatch_only_applicable (triggerType : string) (context : jsval) (m : machine)
    (e1 e2 : AutomationEngine) :
  isEnabled e1 = isEnabled e2 ->
  applicableRules e1 triggerType = applicableRules e2 triggerType ->
  triggerAutomation triggerType context (with_this e2 m) =
  match triggerAutomation triggerType context (with_this e1 m) with
  | (r, m', t) => (r, with_this e2 m', t)
  end.
Proof.
  intros Hen Happ. unfold triggerAutomation. rewrite !bind_get_this.
  cbn [with_this this]. rewrite <- Hen, <- Happ.
  destruct (isEnabled e1); cbn [negb]; [|reflexivity].
  fold (dispatch_rule context).
  pose proof (ignores_this_for_of (applicableRules e1 triggerType) (dispatch_rule context)
                (ignores_this_dispatch_rule context)) as F.
  rewrite (F m e2), (F m e1).
  now destruct (for_of _ _ m) as [[r m'] t].
Qed.

(** X25.  A dispatch depends on the engine through the global switch and
    the list of the rules it selects, and on nothing else of the registry:
    two engines that agree on these give the same result, the same trace,
    the same heap and the same world. *)
Theorem dispatch_depends_on_selected_rules :
  forall (triggerType : string) (context : jsval) (m : machine)
         (e1 e2 : AutomationEngine),
    isEnabled e1 = isEnabled e2 ->
    applicableRules e1 triggerType = applicableRules e2 triggerType ->
    let x1 := triggerAutomation triggerType context (with_this e1 m) in
    let x2 := triggerAutomation triggerType context (with_this e2 m) in
    result x2 = result x1 /\
    trace x2 = trace x1 /\
    heap (final x2) = heap (final x1) /\
    world (final x2) = world (final x1) /\
    this (final x2) = e2.
Proof.
  intros triggerType context m e1 e2 Hen Happ x1 x2. subst x1 x2.
  rewrite (dispatch_only_applicable _ _ _ _ _ Hen Happ).
  now destruct (triggerAutomation triggerType context (with_this e1 m)) as [[r m'] t].
Qed.

(** X26.  A registered rule that is disabled, or that listens to another
    trigger type, has no part in a dispatch: with the rule removed, the
    dispatch gives the same result, trace, heap and world. *)
Theorem irrelevant_rule_can_be_removed :
  forall (e : AutomationEngine) (ruleId triggerType : string) (r : AutomationRule)
         (context : jsval) (m : machine),
    registry_ok e ->
    getRule ruleId e = Some r ->
    enabled r = false \/ trigger_type (trigger r) <> triggerType ->
    let x1 := triggerAutomation triggerType context (with_this e m) in
    let x2 := triggerAutomation triggerType context (with_this (removeRule ruleId e) m) in
    result x2 = result x1 /\
    trace x2 = trace x1 /\
    heap (final x2) = heap (final x1) /\
    world (final x2) = world (final x1).
Proof.
  intros e ruleId triggerType r context m Hok G Hr x1 x2. subst x1 x2.
  assert (Happ : applicableRules e triggerType =
                 applicableRules (removeRule ruleId e) triggerType).
  { unfold applicableRules. cbn [removeRule rules].
    rewrite (Map_values_delete _ _ Hok). apply filter_filter_implied.
    intros r' Hin Ha. apply andb_true_iff in Ha. destruct Ha as [Hen Hty].
    apply negb_true_iff, String.eqb_neq. intros Hid.
    pose proof (registry_ok_listed e r' Hok Hin) as G'.
    rewrite Hid, G in G'. inversion G'; subst r'.
    apply String.eqb_eq in Hty. destruct Hr as [Hr|Hr]; congruence. }
  rewrite (dispatch_only_applicable triggerType context m e (removeRule ruleId e)
             eq_refl Happ).
  now destruct (triggerAutomation triggerType context (with_this e m)) as [[res m'] t].
Qed.

(* ---------------------------------------------------------------- *)
(** ** Properties of the scheduler *)

Import Scheduler.
Local Open Scope Z_scope.

Lemma Day_MakeDate (day time : Z) :
  0 <= time < msPerDay -> Day (MakeDate day time) = day.
Proof.
  intros H. unfold Day, MakeDate.
  rewrite Z.add_comm, Z.div_add by (unfold msPerDay; lia).
  rewrite Z.div_small by exact H. reflexivity.
Qed.

Lemma TimeWithinDay_range (t : Z) : 0 <= TimeWithinDay t < msPerDay.
Proof. unfold TimeWithinDay. apply Z.mod_pos_bound. unfold msPerDay. lia. Qed.

Lemma Day_TimeWithinDay (t : Z) : t = MakeDate (Day t) (TimeWithinDay t).
Proof.
  unfold MakeDate, Day, TimeWithinDay.
  rewrite Z.mul_comm. apply Z.div_mod. unfold msPerDay. lia.
Qed.

Lemma fixed_offset_times (LocalTZA t : Z) :
  LocalTime (fixed_offset LocalTZA) t = t + LocalTZA /\
  UTC (fixed_offset LocalTZA) t = t - LocalTZA.
Proof. split; reflexivity. Qed.

(** A zone of constant offset keeps every local time. *)
Lemma fixed_offset_keeps (LocalTZA t : Z) :
  keeps_local_time (fixed_offset LocalTZA) t /\ keeps_local_day (fixed_offset LocalTZA) t.
Proof.
  assert (K : LocalTime (fixed_offset LocalTZA) (UTC (fixed_offset LocalTZA) t) = t).
  { destruct (fixed_offset_times LocalTZA (UTC (fixed_offset LocalTZA) t)) as [-> _].
    destruct (fixed_offset_times LocalTZA t) as [_ ->]. lia. }
  unfold keeps_local_time, keeps_local_day. rewrite K. split; reflexivity.
Qed.

(** In a zone that keeps the local time of the start, moved to the next day,
    on its day, the first call is at the instant of 09:00 local time of the
    day after [now]. *)
Lemma first_fire_time_in_zone (zone : TimeZone) (now : Date) :
  keeps_local_day zone
    (MakeDate (Day (LocalTime zone (getTime now)) + 1)
              (TimeWithinDay (LocalTime zone (getTime now)))) ->
  fire_time 0 (setupDailySchedule zone now) = tomorrows_target_hour zone now.
Proof.
  unfold keeps_local_day. intros K.
  unfold fire_time, setupDailySchedule, fire, fst, msUntilTomorrow, tomorrows_target_hour.
  unfold setHours, setDate_getDate_plus_1. cbn [getTime].
  rewrite K, Day_MakeDate by apply TimeWithinDay_range. lia.
Qed.

(** The first call is at 09:00 local time of the day after [now]. *)
Lemma first_fire_time (LocalTZA : Z) (now : Date) :
  fire_time 0 (setupDailySchedule LocalTZA now) =
  UTC LocalTZA (MakeDate (Day (LocalTime LocalTZA (getTime now)) + 1) (MakeTime 9 0 0 0)).
Proof. apply first_fire_time_in_zone. apply fixed_offset_keeps. Qed.

Lemma fire_time_Interval (n : nat) (due period : Z) :
  fire_time n (Interval due period) = due + Z.of_nat n * period.
Proof.
  revert due. induction n as [|n IH]; intros due.
  - simpl. lia.
  - cbn [fire_time fire snd]. rewrite IH. lia.
Qed.

Lemma fire_time_period (zone : TimeZone) (now : Date) (n : nat) :
  fire_time n (setupDailySchedule zone now) =
  fire_time 0 (setupDailySchedule zone now) + Z.of_nat n * msPerDay.
Proof.
  destruct n as [|n]; [lia|].
  unfold setupDailySchedule. cbn [fire_time fire fst snd].
  rewrite fire_time_Interval. unfold msPerDay. lia.
Qed.

(** The conditions of the next theorem hold of every zone of constant
    offset, at every start time. *)
Lemma constant_offset_is_regular (LocalTZA : Z) (now : Date) (t : Z) :
  keeps_local_day (fixed_offset LocalTZA) t /\
  keeps_local_time (fixed_offset LocalTZA) t /\
  todays_target_hour (fixed_offset LocalTZA) now <
  tomorrows_target_hour (fixed_offset LocalTZA) now.
Proof.
  split; [apply fixed_offset_keeps|]. split; [apply fixed_offset_keeps|].
  unfold todays_target_hour, tomorrows_target_hour.
  destruct (fixed_offset_times LocalTZA
              (MakeDate (Day (LocalTime (fixed_offset LocalTZA) (getTime now)))
                 (MakeTime 9 0 0 0))) as [_ ->].
  destruct (fixed_offset_times LocalTZA
              (MakeDate (Day (LocalTime (fixed_offset LocalTZA) (getTime now)) + 1)
                 (MakeTime 9 0 0 0))) as [_ ->].
  unfold MakeDate, msPerDay. lia.
Qed.

(** C3, as the code has it.  The code moves the start to the next calendar
    day and then to 09:00, in local time.  So, in every zone that keeps the
    moved time on its day, that does not skip 09:00 of the next day, and in
    which that 09:00 comes after the one of the start day (every zone of
    constant offset is one, by [constant_offset_is_regular]; [sample_zone],
    whose clocks go back during a night, is one on the day before), for
    every start time: the first fire is at 09:00 local time of the calendar
    day after the start day; it is the next occurrence of 09:00 strictly
    after the start exactly when the start is at or past 09:00 of its day;
    and the fire number [n] is [n] times 24 hours after the first, whatever
    the local time then is. *)
Theorem first_fire_is_next_day_at_nine :
  forall (zone : TimeZone) (now : Date),
    let today := Day (LocalTime zone (getTime now)) in
    let first := fire_time 0 (setupDailySchedule zone now) in
    keeps_local_day zone
      (MakeDate (today + 1) (TimeWithinDay (LocalTime zone (getTime now)))) ->
    keeps_local_time zone (MakeDate (today + 1) (MakeTime 9 0 0 0)) ->
    todays_target_hour zone now < tomorrows_target_hour zone now ->
    first = UTC zone (MakeDate (today + 1) (MakeTime 9 0 0 0)) /\
    LocalTime zone first = MakeDate (today + 1) (MakeTime 9 0 0 0) /\
    (first = next_occurrence_of_target_hour zone now <->
     todays_target_hour zone now <= getTime now) /\
    (forall n : nat,
        fire_time n (setupDailySchedule zone now) = first + Z.of_nat n * msPerDay).
Proof.
  intros zone now today first Hday Hnine Hlater. subst first today.
  rewrite (first_fire_time_in_zone zone now Hday).
  split; [reflexivity|]. split; [exact Hnine|]. split.
  - unfold next_occurrence_of_target_hour.
    destruct (Z.ltb_spec (getTime now) (todays_target_hour zone now)); split; intros; lia.
  - intros n. rewrite fire_time_period.
    now rewrite (first_fire_time_in_zone zone now Hday).
Qed.

Lemma fire_time_formula (LocalTZA : Z) (now : Date) (n : nat) :
  fire_time n (setupDailySchedule LocalTZA now) =
  UTC LocalTZA
    (MakeDate (Day (LocalTime LocalTZA (getTime now)) + 1 + Z.of_nat n) (MakeTime 9 0 0 0)).
Proof.
  rewrite fire_time_period, first_fire_time.
  destruct (fixed_offset_times LocalTZA
              (MakeDate (Day (LocalTime LocalTZA (getTime now)) + 1) (MakeTime 9 0 0 0)))
    as [_ ->].
  destruct (fixed_offset_times LocalTZA
              (MakeDate (Day (LocalTime LocalTZA (getTime now)) + 1 + Z.of_nat n)
                 (MakeTime 9 0 0 0))) as [_ ->].
  unfold MakeDate, msPerDay. lia.
Qed.

Lemma TimeWithinDay_MakeDate (day time : Z) :
  0 <= time < msPerDay -> TimeWithinDay (MakeDate day time) = time.
Proof.
  intros H. unfold TimeWithinDay, MakeDate.
  rewrite Z.add_comm, Z.mod_add by (unfold msPerDay; lia).
  now apply Z.mod_small.
Qed.


(** X28.  Under a constant offset of local time, every fire is at 09:00:00.000
    local time, and the fire number [n] falls on the local day [n + 1] days
    after the day of the start: one fire on each following day. *)
Theorem every_fire_is_at_nine :
  forall (LocalTZA : Z) (now : Date) (n : nat),
    let t := LocalTime LocalTZA (fire_time n (setupDailySchedule LocalTZA now)) in
    TimeWithinDay t = 9 * msPerHour /\
    Day t = Day (LocalTime LocalTZA (getTime now)) + 1 + Z.of_nat n.
Proof.
  intros LocalTZA now n t. subst t. rewrite fire_time_formula.
  rewrite (proj1 (fixed_offset_keeps LocalTZA
                    (MakeDate (Day (LocalTime LocalTZA (getTime now)) + 1 + Z.of_nat n)
                       (MakeTime 9 0 0 0)))).
  assert (R : 0 <= MakeTime 9 0 0 0 < msPerDay)
    by (unfold MakeTime, msPerHour, msPerDay; lia).
  split.
  - rewrite (TimeWithinDay_MakeDate _ _ R). unfold MakeTime. lia.
  - apply (Day_MakeDate _ _ R).
Qed.

End Properties.

(* ------------------------------------------------------------------ *)
(** ** Worked examples, in the sample runtime and host *)

#[local] Existing Instance sample_runtime.
#[local] Existing Instance sample_host.

(** The disabled sample rule is registered and listens to [task_created];
    a [task_created] dispatch passes it over. *)
Lemma disabled_rule_is_passed_over_witness :
  getRule "disabled" sample_engine = Some sample_disabled_rule /\
  enabled sample_disabled_rule = false /\
  trigger_type (trigger sample_disabled_rule) = "task_created" /\
  ~ In (Mark_evaluateConditions sample_disabled_rule)
       (trace (triggerAutomation "task_created" (VObject 0) sample_machine)) /\
  ~ In (Mark_executeActions sample_disabled_rule)
       (trace (triggerAutomation "task_created" (VObject 0) sample_machine)).
Proof.
  split; [reflexivity|]. split; [reflexivity|]. split; [reflexivity|].
  apply disabled_rule_is_passed_over. reflexivity.
Defined.

(** In the sample host the first action of the failing rule throws; the
    dispatch returns all the same, the second action of that rule and the
    action of the following rule are attempted, and their notices are shown. *)
Lemma action_failures_are_contained_witness :
  result (executeAction (notify "fail") (VObject 0) sample_machine) =
    Thrown (HostError "Notice failed") /\
  In (Console "error" [LText "Error executing automation action:";
                       LError (HostError "Notice failed")])
     (trace (executeActions [notify "fail"] (VObject 0) sample_machine)) /\
  result (triggerAutomation "task_created" (VObject 0) sample_machine) = Returned tt /\
  attempted_actions
    (trace (triggerAutomation "task_created" (VObject 0) sample_machine)) =
    [notify "fail"; notify "Task {{task.title}}"; notify "from the following rule"] /\
  world (final (triggerAutomation "task_created" (VObject 0) sample_machine)) =
    ["from the following rule"; "Task Write report"].
Proof.
  destruct (action_failures_are_contained "task_created" (VObject 0) sample_machine) as (_ & Hcatch & Hret & Hact).
  assert (Hthrow : result (executeAction (notify "fail") (VObject 0) sample_machine) =
                   Thrown (HostError "Notice failed")) by reflexivity.
  split; [exact Hthrow|].
  split; [exact (proj2 (Hcatch _ _ _ Hthrow))|].
  split; [exact Hret|].
  split; [|reflexivity].
  rewrite Hact. reflexivity.
Defined.

(** [3 < 4] holds between numbers; the string ["3"] and [undefined] are not
    numbers. *)
Lemma comparison_operators_need_numbers_witness :
  evaluateCondition (VNumber 3%float) "less_than" (VNumber 4%float) = true /\
  evaluateCondition (VNumber 4%float) "greater_than" (VNumber 3%float) = true /\
  evaluateCondition (VString "3") "less_than" (VNumber 4%float) = false /\
  evaluateCondition VUndefined "greater_than" (VNumber 0%float) = false.
Proof.
  split; [|split; [|split]].
  - apply (comparison_operators_need_numbers (VNumber 3%float) (VNumber 4%float)).
    exists 3%float, 4%float. repeat split.
  - apply (comparison_operators_need_numbers (VNumber 4%float) (VNumber 3%float)).
    exists 4%float, 3%float. repeat split.
  - apply (comparison_operators_need_numbers (VString "3") (VNumber 4%float)).
    left. discriminate.
  - apply (comparison_operators_need_numbers VUndefined (VNumber 0%float)).
    left. discriminate.
Defined.

(** On the sample context: [task.dueDate] and [project.name] are missing,
    [note] is the empty string, [task.title] is a non-empty string and [task]
    is an object. *)
Lemma is_empty_on_resolved_field_witness :
  evaluateCondition
    (getFieldValue sample_heap (VObject 0) "task.dueDate") "is_empty" VNull = true /\
  evaluateCondition
    (getFieldValue sample_heap (VObject 0) "project.name") "is_empty" VNull = true /\
  evaluateCondition
    (getFieldValue sample_heap (VObject 0) "note") "is_empty" VNull = true /\
  evaluateCondition
    (getFieldValue sample_heap (VObject 0) "task.title") "is_empty" VNull = false /\
  evaluateCondition
    (getFieldValue sample_heap (VObject 0) "task") "is_empty" VNull = false.
Proof.
  split; [|split; [|split; [|split]]].
  - destruct (is_empty_on_resolved_field sample_heap (VObject 0)
                "task.dueDate" VNull) as (Hmissing & _).
    apply Hmissing. reflexivity.
  - destruct (is_empty_on_resolved_field sample_heap (VObject 0)
                "project.name" VNull) as (Hmissing & _).
    apply Hmissing. reflexivity.
  - destruct (is_empty_on_resolved_field sample_heap (VObject 0)
                "note" VNull) as (_ & Hempty & _).
    apply Hempty. reflexivity.
  - destruct (is_empty_on_resolved_field sample_heap (VObject 0)
                "task.title" VNull) as (_ & _ & Hstring & _).
    apply (Hstring "Write report"); [discriminate|reflexivity].
  - destruct (is_empty_on_resolved_field sample_heap (VObject 0)
                "task" VNull) as (_ & _ & _ & Hobject).
    apply (Hobject 1%nat). reflexivity.
Defined.


(** Where two pairs of opening braces precede one pair of closing braces,
    the match starts at the first pair: the path is [a{{task.title], which
    resolves to nothing, and the text stays. *)
Example interpolateString_leftmost_match :
  interpolateString sample_heap "{{a{{task.title}}" (VObject 0) = "{{a{{task.title}}".
Proof. reflexivity. Qed.


(** The same with three opening braces: the match is [{{{count}}], the path
    [{count] resolves to nothing, and the text comes back as it is, although
    it holds the token [{{count}}]. *)
Example interpolateString_three_braces :
  interpolateString sample_heap "{{{count}}}" (VObject 0) = "{{{count}}}" /\
  interpolateString sample_heap "{{count}}" (VObject 0) = "3".
Proof. split; reflexivity. Qed.

(** The registry on the sample rules: a rule added under the id of the
    disabled rule takes its place. *)
Lemma registry_round_trip_witness :
  getRule "disabled" (addRule sample_disabled_rule sample_engine) =
    Some sample_disabled_rule /\
  getRule "disabled"
    (addRule (set_enabled sample_disabled_rule true)
       (addRule sample_disabled_rule sample_engine)) =
    Some (set_enabled sample_disabled_rule true) /\
  getRule "disabled" (removeRule "disabled" (addRule sample_disabled_rule sample_engine)) =
    None.
Proof.
  destruct (registry_round_trip sample_engine sample_disabled_rule
              (set_enabled sample_disabled_rule true)) as (Hget & Hlast & Hremove).
  split; [exact Hget|]. split; [exact (Hlast eq_refl)|exact Hremove].
Defined.

(** Once [setEnabled(false)] was called, and whatever rules are added
    afterwards, a dispatch does nothing. *)
Lemma disabled_engine_dispatch_is_noop_witness :
  let m := {| this := addRule sample_following_rule (setEnabled false sample_engine);
              heap := sample_heap; world := [] |} in
  isEnabled (this m) = false /\
  triggerAutomation "task_created" (VObject 0) m = (Returned tt, m, []).
Proof.
  split; [reflexivity|].
  apply disabled_engine_dispatch_is_noop. reflexivity.
Defined.

(** A daily dispatch on the engine with its default rules selects the rule
    on overdue tasks, evaluates its conditions and stops there: no action,
    no notice. *)
Example overdue_rule_daily_dispatch :
  let m := {| this := loadDefaultRules "2026-11-01T08:00:00.000Z" (new_AutomationEngine true);
              heap := sample_heap; world := [] |} in
  triggerAutomation "daily_schedule" (VObject 0) m =
  (Returned tt, m,
   [Mark_evaluateConditions (overdue_task_notification "2026-11-01T08:00:00.000Z")]).
Proof. reflexivity. Qed.

(** The scenario of the specification: the context [{task: {priority: "high"}}]
    and a rule on [task.priority] whose message names the missing
    [task.title]; the token stays in the notice. *)
Example high_priority_scenario :
  let rule :=
    {| id := "scenario"; name := ""; description := ""; trigger := on_task_created;
       conditions := [ {| field := "task.priority"; operator := "equals";
                          value := VString "high" |} ];
       actions := [notify "High priority task created: {{task.title}}"];
       enabled := true |} in
  let m := {| this := addRule rule (new_AutomationEngine true);
              heap := sample_heap; world := [] |} in
  world (final (triggerAutomation "task_created" (VObject 3) m)) =
  ["High priority task created: {{task.title}}"].
Proof. reflexivity. Qed.

(** Started at 08:00, local time being UTC: the first fire is at 09:00 of the
    next day, 25 hours later, while the next occurrence of 09:00 is one hour
    later. *)
Lemma first_fire_before_nine_counterexample :
  Scheduler.fire_time 0
    (Scheduler.setupDailySchedule 0%Z {| Scheduler.getTime := (8 * 3600000)%Z |}) <>
  Scheduler.next_occurrence_of_target_hour 0%Z {| Scheduler.getTime := (8 * 3600000)%Z |}.
Proof. vm_compute. discriminate. Qed.

(** Started at 14:00, local time being one hour ahead of UTC: the first fire
    is at 09:00 local time of the next day, 19 hours later, which is the next
    occurrence of 09:00; the second fire is 24 hours after the first.
    Started at 00:00 of the day before the clocks go back in [sample_zone]:
    the first fire is at 09:00 local time of the next day, 34 hours later. *)
Lemma first_fire_is_next_day_at_nine_witness :
  let now := {| Scheduler.getTime := (13 * 3600000)%Z |} in
  let midnight := {| Scheduler.getTime := (4 * 3600000)%Z |} in
  (Scheduler.fire_time 0 (Scheduler.setupDailySchedule 3600000%Z now) =
     ((24 + 8) * 3600000)%Z /\
   Scheduler.fire_time 0 (Scheduler.setupDailySchedule 3600000%Z now) =
     Scheduler.next_occurrence_of_target_hour 3600000%Z now /\
   Scheduler.fire_time 1 (Scheduler.setupDailySchedule 3600000%Z now) =
     ((24 + 8) * 3600000 + 24 * 3600000)%Z) /\
  (Scheduler.fire_time 0 (Scheduler.setupDailySchedule sample_zone midnight) =
     (4 * 3600000 + 34 * 3600000)%Z /\
   Scheduler.LocalTime sample_zone
     (Scheduler.fire_time 0 (Scheduler.setupDailySchedule sample_zone midnight)) =
     ((24 + 9) * 3600000)%Z /\
   Scheduler.fire_time 1 (Scheduler.setupDailySchedule sample_zone midnight) =
     (4 * 3600000 + 34 * 3600000 + 24 * 3600000)%Z).
Proof.
  intros now midnight. split.
  - destruct (first_fire_is_next_day_at_nine 3600000%Z now)
      as (Hfirst & _ & Hnext & Hperiod); try (vm_compute; reflexivity).
    split; [exact Hfirst|]. split.
    + apply Hnext. vm_compute. discriminate.
    + rewrite (Hperiod 1%nat). rewrite Hfirst. reflexivity.
  - destruct (first_fire_is_next_day_at_nine sample_zone midnight)
      as (Hfirst & Hlocal & _ & Hperiod); try (vm_compute; reflexivity).
    split; [exact Hfirst|]. split; [exact Hlocal|].
    rewrite (Hperiod 1%nat). rewrite Hfirst. reflexivity.
Defined.

(* ------------------------------------------------------------------ *)
(** ** More worked examples *)

Lemma sample_engine_ok : registry_ok sample_engine.
Proof.
  split.
  - repeat constructor.
  - repeat constructor; simpl; intuition discriminate.
Qed.

(** [task.title] from the context is [title] from the task; [note.length]
    and [missing.title] resolve to nothing in the sample runtime. *)
Lemma getFieldValue_compose_witness :
  getFieldValue sample_heap (VObject 0) "task.title" =
    getFieldValue sample_heap (VObject 1) "title" /\
  getFieldValue sample_heap (VObject 0) "missing.title" = VUndefined.
Proof.
  split.
  - exact (proj1 (getFieldValue_compose sample_heap (VObject 0) "task" "title")).
  - apply (proj2 (getFieldValue_compose sample_heap (VObject 0) "missing" "title")).
    right. reflexivity.
Defined.

(** The sample context has a task with a title and a priority, but neither a
    due date nor a project: a template that asks for these two only comes
    back as it is. *)
Lemma interpolateString_nothing_resolves_witness :
  interpolateString sample_heap "Task due {{task.dueDate}} of {{ project }}" (VObject 0) =
  "Task due {{task.dueDate}} of {{ project }}".
Proof.
  apply (proj1 (interpolateString_nothing_resolves sample_heap
                  "Task due {{task.dueDate}} of {{ project }}" (VObject 0))).
  intros before path rest Hp E.
  pose proof (token_paths_complete before path rest Hp) as Hin.
  rewrite <- E in Hin. vm_compute in Hin.
  destruct Hin as [<-|[<-|[]]]; reflexivity.
Defined.

(** A rule with the operator [greater], which does not exist. *)
Lemma unknown_operator_blocks_rule_witness :
  let c := {| field := "count"; operator := "greater"; value := VNumber 1%float |} in
  let rule := {| id := "typo"; name := ""; description := ""; trigger := on_task_created;
                 conditions := [c]; actions := [notify "never"]; enabled := true |} in
  let m := @Build_machine sample_host (addRule rule sample_engine) sample_heap [] in
  getRule "typo" (this m) = Some rule /\
  ~ In (Mark_executeActions rule) (trace (triggerAutomation "task_created" (VObject 0) m)).
Proof.
  intros c rule m. split; [reflexivity|].
  apply (unknown_operator_blocks_rule rule c); [now left|reflexivity].
Defined.

(** No rule of the sample engine listens to [task_updated], the trigger of
    the handler of modified files. *)
Lemma dispatch_without_listener_is_noop_witness :
  triggerAutomation "task_updated" (VObject 0) sample_machine =
  (Returned tt, sample_machine, []).
Proof. apply dispatch_without_listener_is_noop. reflexivity. Defined.

(** On the context of the scenario, where [priority] is a field of [task]
    and not of the context, the default rule on high priority does not
    fire. *)
Lemma default_rules_on_task_created_witness :
  let m := @Build_machine sample_host
             (loadDefaultRules "2026-11-01T08:00:00.000Z" (new_AutomationEngine true))
             sample_heap [] in
  triggerAutomation "task_created" (VObject 3) m =
  (Returned tt, m, [Mark_evaluateConditions high_priority_notification]).
Proof.
  intros m.
  apply (proj2 (default_rules_on_task_created "2026-11-01T08:00:00.000Z" (VObject 3) m
                  eq_refl)).
  vm_compute. discriminate.
Defined.

Lemma unhandled_action_type_warns_witness :
  executeAction {| action_type := "send_email"; action_parameters := [] |}
    (VObject 0) sample_machine =
  (Returned tt, sample_machine,
   [Console "warn" [LText "Unknown automation action type: send_email"]]).
Proof.
  exact (unhandled_action_type_warns
           {| action_type := "send_email"; action_parameters := [] |}
           (VObject 0) sample_machine eq_refl).
Defined.

Lemma only_notifications_and_notes_reach_the_host_witness :
  final (executeAction
           {| action_type := "update_status";
              action_parameters := [("type", VString "milestone")] |}
           (VObject 0) sample_machine) = sample_machine.
Proof. apply only_notifications_and_notes_reach_the_host; discriminate. Defined.

Lemma notification_without_message_witness :
  let action := {| action_type := "send_notification"; action_parameters := [] |} in
  executeActions [action] (VObject 0) sample_machine =
  (Returned tt, sample_machine,
   [Mark_executeAction action;
    Console "error" [LText "Error executing automation action:";
                     LError (TypeError "template.replace is not a function")]]).
Proof.
  intros action.
  apply (notification_without_message action (VObject 0) sample_machine eq_refl).
  intros s. discriminate.
Defined.

(** The sample vault refuses every file: the action returns and logs. *)
Lemma create_note_contains_vault_failure_witness :
  executeAction
    {| action_type := "create_note";
       action_parameters := [("path", VString "Notes/{{task.title}}.md");
                             ("content", VString "About {{task.title}}")] |}
    (VObject 0) sample_machine =
  (Returned tt, sample_machine,
   [VaultCreate "Notes/Write report.md" "About Write report";
    Console "error" [LText "Error creating note via automation:";
                     LError (HostError "File already exists")]]).
Proof.
  exact (create_note_contains_vault_failure
           {| action_type := "create_note";
              action_parameters := [("path", VString "Notes/{{task.title}}.md");
                                    ("content", VString "About {{task.title}}")] |}
           (VObject 0) sample_machine "About {{task.title}}" "Notes/{{task.title}}.md"
           eq_refl eq_refl eq_refl).
Defined.

Lemma create_note_without_strings_witness :
  executeAction
    {| action_type := "create_note";
       action_parameters := [("path", VString "Notes/a.md")] |}
    (VObject 0) sample_machine =
  (Thrown (TypeError "template.replace is not a function"), sample_machine, []).
Proof.
  apply create_note_without_strings; [reflexivity|].
  left. intros s. discriminate.
Defined.

(** The parameter wins over the context, here [null]. *)
Lemma update_task_id_precedence_witness :
  executeAction
    {| action_type := "update_task"; action_parameters := [("taskId", VString "T-7")] |}
    VNull sample_machine =
  (Returned tt, sample_machine, [Console "log" [LText "Automation: Updating task T-7"]]) /\
  executeAction {| action_type := "update_task"; action_parameters := [] |}
    VNull sample_machine =
  (Thrown (TypeError "Cannot read properties of undefined or null"), sample_machine, []).
Proof.
  split.
  - apply (update_task_id_precedence
             {| action_type := "update_task";
                action_parameters := [("taskId", VString "T-7")] |}
             VNull sample_machine eq_refl); discriminate.
  - apply (update_task_id_precedence
             {| action_type := "update_task"; action_parameters := [] |}
             VNull sample_machine eq_refl); [now left|now right].
Defined.

(** Disabling the failing rule of the sample engine. *)
Lemma rule_flag_operations_witness :
  getRule "failing" (disableRule "failing" sample_engine) =
    Some (set_enabled sample_failing_rule false) /\
  disableRule "unknown" sample_engine = sample_engine /\
  getRule "following" (disableRule "failing" sample_engine) = Some sample_following_rule.
Proof.
  destruct (rule_flag_operations sample_engine "failing" false)
    as (Hflag & _ & Hother & _).
  destruct (rule_flag_operations sample_engine "unknown" false) as (_ & Habsent & _).
  split; [exact (Hflag sample_failing_rule eq_refl)|].
  split; [exact (Habsent eq_refl)|].
  rewrite (Hother "following") by discriminate. reflexivity.
Defined.

Lemma rule_flag_round_trip_witness :
  enableRule "failing" (disableRule "failing" sample_engine) = sample_engine /\
  disableRule "disabled" (enableRule "disabled" sample_engine) = sample_engine.
Proof.
  split.
  - apply (rule_flag_round_trip sample_engine "failing" sample_failing_rule eq_refl).
    reflexivity.
  - apply (rule_flag_round_trip sample_engine "disabled" sample_disabled_rule eq_refl).
    reflexivity.
Defined.

(** A new rule goes last; a rule added under the id [failing] stands where
    the failing rule stood. *)
Lemma addRule_position_witness :
  let rule := {| id := "new"; name := ""; description := ""; trigger := on_task_created;
                 conditions := []; actions := []; enabled := true |} in
  getRules (addRule rule sample_engine) = (getRules sample_engine ++ [rule])%list /\
  map fst (rules (addRule (set_enabled sample_failing_rule false) sample_engine)) =
    map fst (rules sample_engine).
Proof.
  intros rule. split.
  - apply (addRule_position sample_engine rule). reflexivity.
  - apply (addRule_position sample_engine (set_enabled sample_failing_rule false)).
    discriminate.
Defined.

Lemma removeRule_frame_witness :
  getRule "following" (removeRule "failing" sample_engine) = Some sample_following_rule /\
  removeRule "unknown" sample_engine = sample_engine /\
  map id (getRules (removeRule "failing" sample_engine)) =
    ["overdue-task-notification"; "task-completion-milestone";
     "high-priority-notification"; "disabled"; "following"].
Proof.
  destruct (removeRule_frame sample_engine "failing") as (Hother & _ & Hlist).
  destruct (removeRule_frame sample_engine "unknown") as (_ & Habsent & _).
  split; [|split].
  - rewrite (Hother "following") by discriminate. reflexivity.
  - exact (Habsent eq_refl).
  - rewrite (Hlist sample_engine_ok). reflexivity.
Defined.

Lemma registry_invariant_witness :
  registry_ok (new_AutomationEngine true) /\
  registry_ok (disableRule "failing" (removeRule "disabled" sample_engine)).
Proof.
  split.
  - apply (registry_invariant sample_engine sample_failing_rule "" "" true).
  - apply (registry_invariant (removeRule "disabled" sample_engine)
             sample_failing_rule "failing" "" true).
    apply (registry_invariant sample_engine sample_failing_rule "disabled" "" true).
    exact sample_engine_ok.
Defined.

Lemma getRules_agrees_with_getRule_witness :
  getRule (id sample_failing_rule) sample_engine = Some sample_failing_rule /\
  NoDup (map id (getRules sample_engine)).
Proof.
  destruct (getRules_agrees_with_getRule sample_engine sample_engine_ok)
    as (Hlisted & _ & Hnodup).
  split; [|exact Hnodup].
  apply Hlisted. simpl. auto 10.
Defined.

(** Loading the defaults over a registry that holds a rule of the user under
    the id of a default rule: the default takes its place, the rule with
    another id stays. *)
Lemma loadDefaultRules_installs_witness :
  let mine := set_enabled task_completion_milestone false in
  let e := addRule sample_following_rule (addRule mine (new_AutomationEngine true)) in
  getRule "task-completion-milestone" (loadDefaultRules "2026" e) =
    Some task_completion_milestone /\
  getRule "following" (loadDefaultRules "2026" e) = Some sample_following_rule.
Proof.
  intros mine e.
  destruct (loadDefaultRules_installs "2026" e true) as (Hdefault & Hother & _).
  split.
  - apply (Hdefault task_completion_milestone). simpl. auto.
  - rewrite (Hother "following"); [reflexivity|].
    simpl. intuition discriminate.
Defined.


Lemma late_enabling_finds_no_rules_witness :
  let m := @Build_machine sample_host (new_AutomationEngine false) sample_heap [] in
  let m' := final (initialize (fun _ w => (Returned true, w)) "Projects"
                     "2026-11-01T14:00:00.000Z" 0%Z
                     {| Scheduler.getTime := (14 * 3600000)%Z |} m) in
  let m'' := with_this (setEnabled true (this m')) m' in
  triggerAutomation "task_created" (VObject 0) m'' = (Returned tt, m'', []).
Proof.
  intros m m' m''.
  apply (late_enabling_finds_no_rules (fun _ w => (Returned true, w)) "Projects"
           "2026-11-01T14:00:00.000Z" "task_created" 0%Z
           {| Scheduler.getTime := (14 * 3600000)%Z |} (VObject 0) m eq_refl).
Defined.

(** The daily run on the engine with the default rules: the context goes to
    address 5, the first that the sample heap does not use. *)
Lemma runDailyAutomation_behaviour_witness :
  let m := @Build_machine sample_host
             (loadDefaultRules "2026-11-01T08:00:00.000Z" (new_AutomationEngine true))
             sample_heap [] in
  runDailyAutomation "2026-11-02T09:00:00.000Z" m =
  (Returned tt,
   @Build_machine sample_host (this m)
     ((5%nat, [("date", VString "2026-11-02T09:00:00.000Z");
               ("type", VString "daily_check")]) :: sample_heap) [],
   [Mark_evaluateConditions (overdue_task_notification "2026-11-01T08:00:00.000Z")]).
Proof.
  intros m.
  exact (proj2 (runDailyAutomation_behaviour "2026-11-02T09:00:00.000Z" m)
           "2026-11-01T08:00:00.000Z" eq_refl).
Defined.

(** The sample engine with and without its disabled rule. *)
Lemma dispatch_depends_on_selected_rules_witness :
  let e2 := removeRule "disabled" sample_engine in
  trace (triggerAutomation "task_created" (VObject 0) (with_this e2 sample_machine)) =
    trace (triggerAutomation "task_created" (VObject 0)
             (with_this sample_engine sample_machine)) /\
  world (final (triggerAutomation "task_created" (VObject 0)
                  (with_this e2 sample_machine))) =
    ["from the following rule"; "Task Write report"].
Proof.
  intros e2.
  destruct (dispatch_depends_on_selected_rules "task_created" (VObject 0) sample_machine
              sample_engine e2 eq_refl eq_refl) as (_ & Htrace & _ & Hworld & _).
  split; [exact Htrace|]. rewrite Hworld. reflexivity.
Defined.

(** The rule on overdue tasks listens to [daily_schedule]: it has no part in
    a [task_created] dispatch. *)
Lemma irrelevant_rule_can_be_removed_witness :
  let e2 := removeRule "overdue-task-notification" sample_engine in
  trace (triggerAutomation "task_created" (VObject 0) (with_this e2 sample_machine)) =
  trace (triggerAutomation "task_created" (VObject 0)
           (with_this sample_engine sample_machine)).
Proof.
  intros e2.
  apply (irrelevant_rule_can_be_removed sample_engine "overdue-task-notification"
           "task_created" (overdue_task_notification "2026-11-01T08:00:00.000Z")
           (VObject 0) sample_machine sample_engine_ok eq_refl).
  right. discriminate.
Defined.

